(** * SusButton playground: the orchestrator's state machine and the
    theme-token resolver

    A shallow embedding of the state logic of [MetaPrototype] (the history
    stacks, the floating-window stacking order, the overlay flags, the event
    log) and of [resolveTokens] / [isResponsiveObject] from the theme module,
    with what the panels derive from that state: the undo and redo flags,
    the state selector of the control panel, the style tables of the button
    and of the code panel, and the radius of the focus ring.

    Conventions.
    - A JavaScript value is a term of [value]: [undefined], [null],
      booleans, numbers, strings, arrays and plain data objects.  Numbers are
      the integers: the token tables, the z-orders and the counters hold
      integers, which doubles represent exactly below 2^53.
    - An object is the list of its own enumerable properties in the order
      [for ... in], [Object.keys] and object spread visit them; a name occurs
      once, and none is [__proto__].
    - A [useState] cell is a field of [State].  A handler is a function of
      the state its closure captured at render time and of the pending state
      its setters act on; one event runs one handler, and React renders
      before the next event.
    - The environment (random ids, the clock, [JSON.parse]) is an input.
    - Effects other than the mount-time log entry are left out: the effect
      that mirrors [btnProps] into [codeText] while the code panel is not
      focused, and the one that drives [layerSpacing].  Both write cells no
      handler reads. *)

From Stdlib Require Import List String Ascii ZArith Lia Bool Arith.
From Stdlib Require Import DecimalString.
From Stdlib Require HexadecimalString DecimalN DecimalPos.
Import ListNotations.

#[local] Set Warnings "-register-all".

Local Open Scope string_scope.

(** ** JavaScript values *)

Module JS.

Inductive value : Type :=
| JUndefined
| JNull
| JBool (b : bool)
| JNum (n : Z)
| JStr (s : string)
| JArr (items : list value)
| JObj (props : list (string * value)).

(** [a ?? b] *)
Definition nullish (v : value) : bool :=
  match v with
  | JUndefined | JNull => true
  | _ => false
  end.

Definition coalesce (a b : value) : value := if nullish a then b else a.

(** The truth value a condition takes a value for. *)
Definition truthy (v : value) : bool :=
  match v with
  | JUndefined | JNull => false
  | JBool b => b
  | JNum n => negb (n =? 0)%Z
  | JStr s => negb (String.eqb s "")
  | JArr _ | JObj _ => true
  end.

(** [typeof v === 'object'], which holds of [null] too. *)
Definition typeof_object (v : value) : bool :=
  match v with
  | JNull | JArr _ | JObj _ => true
  | _ => false
  end.

(** [v !== null] *)
Definition not_null (v : value) : bool :=
  match v with
  | JNull => false
  | _ => true
  end.

(** The decimal name of an index, as [for ... in] reports it. *)
Definition index_key (i : nat) : string :=
  NilEmpty.string_of_uint (Nat.to_uint i).

(** The names of the indices of an array are made of digits. *)
Fixpoint all_digits (k : string) : bool :=
  match k with
  | EmptyString => true
  | String c rest =>
      (Nat.leb 48 (nat_of_ascii c) && Nat.leb (nat_of_ascii c) 57)
      && all_digits rest
  end.

Fixpoint chars (s : string) : list string :=
  match s with
  | EmptyString => []
  | String c rest => String c EmptyString :: chars rest
  end.

Definition indexed {A : Type} (l : list A) : list (string * A) :=
  combine (map index_key (seq 0 (List.length l))) l.

(** The own enumerable properties of a value, in enumeration order: what
    [for ... in] with the [hasOwnProperty] test visits and what object spread
    copies.  Primitives other than strings have none. *)
Definition own_props (v : value) : list (string * value) :=
  match v with
  | JObj ps => ps
  | JArr items => indexed items
  | JStr s => indexed (map JStr (chars s))
  | _ => []
  end.

Fixpoint assoc (k : string) (ps : list (string * value)) : option value :=
  match ps with
  | [] => None
  | (k', v) :: rest => if String.eqb k k' then Some v else assoc k rest
  end.

(** [k in v] for an object or an array [v] and a name [k] that the
    prototypes do not define.  (On a primitive [in] throws; the source tests
    [typeof] first.) *)
Definition has_key (k : string) (v : value) : bool :=
  match v with
  | JObj _ | JArr _ =>
      match assoc k (own_props v) with Some _ => true | None => false end
  | _ => false
  end.

(** [v[k]] (or [v.k]) for such a name: a missing property reads as
    [undefined].  (On [undefined] and [null] the read throws; the source
    reads the branches of responsive values only.)  Only the enumerable own
    properties are looked at: [get] is not the read of [length], nor of a
    member of a prototype. *)
Definition get (v : value) (k : string) : value :=
  match assoc k (own_props v) with
  | Some x => x
  | None => JUndefined
  end.

(** *** Property writes and object spread

    [OrdinaryOwnPropertyKeys] lists array-index names first, in numeric
    order, then the other names in insertion order.  [obj_set] keeps a list
    of properties in that order. *)

Definition array_index (k : string) : option N :=
  match NilEmpty.uint_of_string k with
  | Some d =>
      let n := N.of_uint d in
      if String.eqb (NilEmpty.string_of_uint (N.to_uint n)) k
         && (n <? 2 ^ 32 - 1)%N
      then Some n else None
  | None => None
  end.

Fixpoint replace (k : string) (v : value) (ps : list (string * value))
  : list (string * value) :=
  match ps with
  | [] => []
  | (k', x) :: rest =>
      if String.eqb k k' then (k', v) :: rest else (k', x) :: replace k v rest
  end.

Fixpoint insert_index (n : N) (k : string) (v : value)
  (ps : list (string * value)) : list (string * value) :=
  match ps with
  | [] => [(k, v)]
  | (k', x) :: rest =>
      match array_index k' with
      | Some m =>
          if (m <? n)%N then (k', x) :: insert_index n k v rest
          else (k, v) :: ps
      | None => (k, v) :: ps
      end
  end.

(** [o[k] = v] on the property list of [o], also [{ ...o, [k]: v }]. *)
Definition obj_set (k : string) (v : value) (ps : list (string * value))
  : list (string * value) :=
  match assoc k ps with
  | Some _ => replace k v ps
  | None =>
      match array_index k with
      | Some n => insert_index n k v ps
      | None => (ps ++ [(k, v)])%list
      end
  end.

(** [{ ...target, ...src }], [target] given by its properties. *)
Definition spread (target : list (string * value)) (src : value)
  : list (string * value) :=
  fold_left (fun acc kv => obj_set (fst kv) (snd kv) acc) (own_props src)
    target.

(** *** String conversion, as a template literal applies it *)

Definition string_of_Z (n : Z) : string :=
  NilEmpty.string_of_int (Z.to_int n).

Fixpoint ToString (v : value) : string :=
  match v with
  | JUndefined => "undefined"
  | JNull => "null"
  | JBool true => "true"
  | JBool false => "false"
  | JNum n => string_of_Z n
  | JStr s => s
  | JArr items =>
      String.concat ","
        (map (fun x => if nullish x then "" else ToString x) items)
  | JObj _ => "[object Object]"
  end.

End JS.

(** ** Theme tokens *)

Module Tokens.
Import JS.

(** Modelled from the spec: the [Breakpoint] type is imported from
    [hooks/useBreakpoint.tsx], which is not among the sources; the spec names
    its three members, and [isResponsiveObject] spells their keys. *)
Inductive Breakpoint : Type := mobile | tablet | desktop.

Definition key (b : Breakpoint) : string :=
  match b with
  | mobile => "mobile"
  | tablet => "tablet"
  | desktop => "desktop"
  end.

Definition isResponsiveObject (v : value) : bool :=
  truthy v && typeof_object v
  && (has_key "mobile" v || has_key "tablet" v || has_key "desktop" v).

(** [value[breakpoint] ?? value.desktop ?? value.tablet ?? value.mobile] *)
Definition pick (v : value) (breakpoint : Breakpoint) : value :=
  coalesce (coalesce (coalesce (get v (key breakpoint)) (get v "desktop"))
                     (get v "tablet"))
           (get v "mobile").

(** The loop [for (const key in obj)], with its [hasOwnProperty] test, visits
    the own properties of [obj] in order and writes each name once into
    [resolved].  The properties of a string are its characters, which are
    leaves; the other primitives have none. *)
Fixpoint resolveTokens (obj : value) (breakpoint : Breakpoint) : value :=
  let entry (value0 : value) : value :=
    if isResponsiveObject value0 then pick value0 breakpoint
    else if typeof_object value0 && not_null value0
         then resolveTokens value0 breakpoint
    else value0 in
  JObj
    match obj with
    | JObj ps => map (fun kv => (fst kv, entry (snd kv))) ps
    | JArr items =>
        combine (map index_key (seq 0 (List.length items))) (map entry items)
    | JStr s => indexed (map JStr (chars s))
    | _ => []
    end.

(** *** The specification's vocabulary *)

(** The specification's reading of a responsive value: a mapping that holds
    at least one of the reserved keys. *)
Definition reserved : list string := ["mobile"; "tablet"; "desktop"].

Definition is_responsive_mapping (v : value) : bool :=
  match v with
  | JObj ps => existsb (fun k => existsb (String.eqb k) (map fst ps)) reserved
  | _ => false
  end.

(** The value under the first of [keys] that is present (neither missing nor
    null); when none is, whatever the last key reads. *)
Fixpoint fallback (v : value) (keys : list string) : value :=
  match keys with
  | [] => JUndefined
  | [k] => get v k
  | k :: rest => if nullish (get v k) then fallback v rest else get v k
  end.

(** A property of a walked mapping, resolved as the specification words it:
    a responsive value gives its branch for the breakpoint, with the fallback
    order desktop, tablet, mobile; any other object is walked; a leaf is
    kept. *)
Definition resolve_property (b : Breakpoint) (v : value) : value :=
  if is_responsive_mapping v
  then fallback v [key b; "desktop"; "tablet"; "mobile"]
  else
    match v with
    | JObj _ | JArr _ => resolveTokens v b
    | _ => v
    end.

End Tokens.

(** ** Floating windows *)

Module Windows.

Inductive WindowId : Type := control | code | console.

Record WindowState : Type := mkWindow {
  id : WindowId;
  title : string;
  isOpen : bool;
  zIndex : Z;
  x : Z;
  y : Z
}.

(** [Record<WindowId, WindowState>] *)
Record Windows : Type := mkWindows {
  w_control : WindowState;
  w_code : WindowState;
  w_console : WindowState
}.

Definition get (ws : Windows) (i : WindowId) : WindowState :=
  match i with
  | control => w_control ws
  | code => w_code ws
  | console => w_console ws
  end.

(** [{ ...ws, [i]: w }] *)
Definition set (ws : Windows) (i : WindowId) (w : WindowState) : Windows :=
  match i with
  | control => mkWindows w (w_code ws) (w_console ws)
  | code => mkWindows (w_control ws) w (w_console ws)
  | console => mkWindows (w_control ws) (w_code ws) w
  end.

Definition Object_values (ws : Windows) : list WindowState :=
  [w_control ws; w_code ws; w_console ws].

(** [Math.max(...zs)]; the empty case ([-Infinity]) does not occur, a
    [Windows] has three values. *)
Definition Math_max (zs : list Z) : Z :=
  match zs with
  | [] => 0
  | z :: rest => fold_left Z.max rest z
  end.

Definition maxZ (prev : Windows) : Z :=
  Math_max (map zIndex (Object_values prev)).

Definition with_zIndex (w : WindowState) (z : Z) : WindowState :=
  mkWindow (id w) (title w) (isOpen w) z (x w) (y w).

Definition with_isOpen (w : WindowState) (o : bool) : WindowState :=
  mkWindow (id w) (title w) o (zIndex w) (x w) (y w).

(** The updater [bringToFront] hands to [setWindows]. *)
Definition bringToFront_updater (i : WindowId) (prev : Windows) : Windows :=
  let maxZ := maxZ prev in
  if (zIndex (get prev i) =? maxZ)%Z then prev
  else set prev i (with_zIndex (get prev i) (maxZ + 1)).

(** The updater [toggleWindow] hands to [setWindows]. *)
Definition toggleWindow_updater (i : WindowId) (prev : Windows) : Windows :=
  let isOpen := negb (isOpen (get prev i)) in
  let next := set prev i (with_isOpen (get prev i) isOpen) in
  if isOpen then
    let maxZ := maxZ prev in
    set next i (with_zIndex (get next i) (maxZ + 1))
  else next.

Definition WINDOW_WIDTH : Z := 400.
Definition CONTROL_PANEL_HEIGHT : Z := 680.
Definition CODE_PANEL_HEIGHT : Z := 420.

Definition initial : Windows :=
  mkWindows
    (mkWindow control "Control" true 1
       (- WINDOW_WIDTH / 2 - 220) (- CONTROL_PANEL_HEIGHT / 2))
    (mkWindow code "Code I/O" false 2
       (- WINDOW_WIDTH / 2 + 220) (- CODE_PANEL_HEIGHT / 2))
    (mkWindow console "Console" false 3 (- WINDOW_WIDTH / 2) 150).

(** *** Stacking order *)

Definition z (ws : Windows) (i : WindowId) : Z := zIndex (get ws i).

Definition distinct (ws : Windows) : Prop :=
  z ws control <> z ws code
  /\ z ws control <> z ws console
  /\ z ws code <> z ws console.

(** [i] is in front: every other window lies strictly below it. *)
Definition front (ws : Windows) (i : WindowId) : Prop :=
  z ws i = maxZ ws /\ forall j : WindowId, j <> i -> (z ws j < z ws i)%Z.

End Windows.

(** ** The orchestrator *)

Module App.
Import JS.

Record LogEntry : Type := mkLogEntry {
  id : string;
  timestamp : string;
  message : string
}.

(** What the environment supplies to one [logEvent] call:
    [Math.random().toString(36).substr(2, 9)] and
    [new Date().toLocaleTimeString()]. *)
Record Stamp : Type := mkStamp {
  random_id : string;
  time_string : string
}.

(** The [useState] cells of [MetaPrototype].  [btnProps] is typed
    [MetaButtonProps], but [handleCodeChange] stores whatever [JSON.parse]
    returns, so the cell holds a [value]. *)
Record State : Type := mkState {
  btnProps : value;
  showMeasurements : bool;
  showTokens : bool;
  view3D : bool;
  confettiTrigger : Z;
  logs : list LogEntry;
  history : list value;
  future : list value;
  windows : Windows.Windows;
  codeText : string;
  isCodeFocused : bool
}.

(** The argument of a state setter: a value, or a function of the pending
    value. *)
Inductive SetStateAction (A : Type) : Type :=
| Value (a : A)
| Updater (f : A -> A).
Arguments Value {A} a.
Arguments Updater {A} f.

Definition next {A : Type} (act : SetStateAction A) (prev : A) : A :=
  match act with
  | Value a => a
  | Updater f => f prev
  end.

Definition setBtnProps (act : SetStateAction value) (p : State) : State :=
  mkState (next act (btnProps p)) (showMeasurements p) (showTokens p)
    (view3D p) (confettiTrigger p) (logs p) (history p) (future p)
    (windows p) (codeText p) (isCodeFocused p).

Definition setShowMeasurements (act : SetStateAction bool) (p : State)
  : State :=
  mkState (btnProps p) (next act (showMeasurements p)) (showTokens p)
    (view3D p) (confettiTrigger p) (logs p) (history p) (future p)
    (windows p) (codeText p) (isCodeFocused p).

Definition setShowTokens (act : SetStateAction bool) (p : State) : State :=
  mkState (btnProps p) (showMeasurements p) (next act (showTokens p))
    (view3D p) (confettiTrigger p) (logs p) (history p) (future p)
    (windows p) (codeText p) (isCodeFocused p).

Definition setView3D (act : SetStateAction bool) (p : State) : State :=
  mkState (btnProps p) (showMeasurements p) (showTokens p)
    (next act (view3D p)) (confettiTrigger p) (logs p) (history p) (future p)
    (windows p) (codeText p) (isCodeFocused p).

Definition setConfettiTrigger (act : SetStateAction Z) (p : State) : State :=
  mkState (btnProps p) (showMeasurements p) (showTokens p)
    (view3D p) (next act (confettiTrigger p)) (logs p) (history p) (future p)
    (windows p) (codeText p) (isCodeFocused p).

Definition setLogs (act : SetStateAction (list LogEntry)) (p : State)
  : State :=
  mkState (btnProps p) (showMeasurements p) (showTokens p)
    (view3D p) (confettiTrigger p) (next act (logs p)) (history p) (future p)
    (windows p) (codeText p) (isCodeFocused p).

Definition setHistory (act : SetStateAction (list value)) (p : State)
  : State :=
  mkState (btnProps p) (showMeasurements p) (showTokens p)
    (view3D p) (confettiTrigger p) (logs p) (next act (history p)) (future p)
    (windows p) (codeText p) (isCodeFocused p).

Definition setFuture (act : SetStateAction (list value)) (p : State)
  : State :=
  mkState (btnProps p) (showMeasurements p) (showTokens p)
    (view3D p) (confettiTrigger p) (logs p) (history p) (next act (future p))
    (windows p) (codeText p) (isCodeFocused p).

Definition setWindows (act : SetStateAction Windows.Windows) (p : State)
  : State :=
  mkState (btnProps p) (showMeasurements p) (showTokens p)
    (view3D p) (confettiTrigger p) (logs p) (history p) (future p)
    (next act (windows p)) (codeText p) (isCodeFocused p).

Definition setCodeText (act : SetStateAction string) (p : State) : State :=
  mkState (btnProps p) (showMeasurements p) (showTokens p)
    (view3D p) (confettiTrigger p) (logs p) (history p) (future p)
    (windows p) (next act (codeText p)) (isCodeFocused p).

Definition setIsCodeFocused (act : SetStateAction bool) (p : State) : State :=
  mkState (btnProps p) (showMeasurements p) (showTokens p)
    (view3D p) (confettiTrigger p) (logs p) (history p) (future p)
    (windows p) (codeText p) (next act (isCodeFocused p)).

(** A sequence of setter calls acts on the pending state, left to right. *)
Definition Update : Type := State -> State.

Definition skip : Update := fun p => p.
Definition andThen (f g : Update) : Update := fun p => g (f p).
Infix ";;" := andThen (at level 61, left associativity).

(** A handler built during a render reads the cells of that render
    ([rendered]) and queues its writes. *)
Definition Handler : Type := State -> Update.

(** [arr.slice(-n)] *)
Definition slice_last {A : Type} (n : nat) (arr : list A) : list A :=
  skipn (List.length arr - n) arr.

(** [arr.slice(0, -1)] *)
Definition slice_init {A : Type} (arr : list A) : list A :=
  firstn (List.length arr - 1) arr.

(** [arr[i]] *)
Definition at_index (arr : list value) (i : nat) : value :=
  nth i arr JUndefined.

Definition logEvent (st : Stamp) (msg : string) : Update :=
  let entry := mkLogEntry (random_id st) (time_string st) msg in
  setLogs (Updater (fun prev => slice_last 50 (prev ++ [entry])%list)).

Definition updateBtnProps (newProps : value) (saveHistory : bool) : Handler :=
  fun rendered =>
    (if saveHistory then
       setHistory (Updater (fun prev => (prev ++ [btnProps rendered])%list)) ;;
       setFuture (Value [])
     else skip) ;;
    setBtnProps (Value newProps).

Definition handleUndo (st : Stamp) : Handler :=
  fun rendered =>
    let history := history rendered in
    if (List.length history =? 0)%nat then skip
    else
      let previous := at_index history (List.length history - 1) in
      let newHistory := slice_init history in
      setFuture (Updater (fun prev => btnProps rendered :: prev)) ;;
      setBtnProps (Value previous) ;;
      setHistory (Value newHistory) ;;
      logEvent st "Undo performed".

Definition handleRedo (st : Stamp) : Handler :=
  fun rendered =>
    let future := future rendered in
    if (List.length future =? 0)%nat then skip
    else
      let next := at_index future 0 in
      let newFuture := skipn 1 future in
      setHistory (Updater (fun prev => (prev ++ [btnProps rendered])%list)) ;;
      setBtnProps (Value next) ;;
      setFuture (Value newFuture) ;;
      logEvent st "Redo performed".

Definition bringToFront (i : Windows.WindowId) : Handler :=
  fun _ => setWindows (Updater (Windows.bringToFront_updater i)).

Definition toggleWindow (i : Windows.WindowId) : Handler :=
  fun _ => setWindows (Updater (Windows.toggleWindow_updater i)).

(** The clipboard write is outside the state. *)
Definition handleCopyCode (st : Stamp) : Handler :=
  fun _ => logEvent st "JSON copied to clipboard".

(** The first argument of [handlePropChange]: a property name, or an object
    of updates ([Partial<MetaButtonProps>]) given by its properties. *)
Definition KeyOrObj : Type := (string + list (string * value))%type.

Definition handlePropChange (st : Stamp) (keyOrObj : KeyOrObj)
  (value0 : value) : Handler :=
  fun rendered =>
    match keyOrObj with
    | inl name =>
        updateBtnProps
          (JObj (obj_set name value0 (spread [] (btnProps rendered)))) true
          rendered ;;
        logEvent st ("Prop updated: " ++ name ++ " = " ++ ToString value0)
    | inr updates =>
        updateBtnProps
          (JObj (spread (spread [] (btnProps rendered)) (JObj updates))) true
          rendered ;;
        logEvent st
          ("State updated: " ++ String.concat ", " (map fst updates))
    end.

Definition handleToggleMeasurements (st : Stamp) : Handler :=
  fun rendered =>
    setShowMeasurements (Updater negb) ;;
    (if showTokens rendered then setShowTokens (Value false) else skip) ;;
    logEvent st
      ("Measurements toggled: "
       ++ (if negb (showMeasurements rendered) then "On" else "Off")).

Definition handleToggleTokens (st : Stamp) : Handler :=
  fun rendered =>
    setShowTokens (Updater negb) ;;
    (if showMeasurements rendered then setShowMeasurements (Value false)
     else skip) ;;
    logEvent st
      ("Tokens toggled: "
       ++ (if negb (showTokens rendered) then "On" else "Off")).

Definition handleStageButtonClick (st : Stamp) : Handler :=
  fun _ =>
    logEvent st "Button Clicked!" ;;
    setConfettiTrigger (Updater (fun prev => (prev + 1)%Z)).

Definition initial : State :=
  mkState
    (JObj [("label", JStr "SusButton"); ("type", JStr "primary");
           ("size", JStr "m"); ("radius", JStr "8px");
           ("iconPlacement", JStr "left"); ("icon", JStr "ph-check");
           ("disabled", JBool false); ("forcedHover", JBool false);
           ("forcedFocus", JBool false); ("forcedActive", JBool false)])
    false false false 0 [] [] [] Windows.initial "" false.

Section WithParser.

(** [JSON.parse]: [None] stands for the [SyntaxError] it throws on a text
    that is not JSON. *)
Variable JSON_parse : string -> option value.

(** The [try] block; [updateBtnProps] does not throw.  When the text does
    not parse no cell the [codeText] effect depends on is written, so the
    effect does not run and the buffer keeps [newVal]. *)
Definition handleCodeChange (newVal : string) : Handler :=
  fun rendered =>
    setCodeText (Value newVal) ;;
    match JSON_parse newVal with
    | Some parsed => updateBtnProps parsed true rendered
    | None => skip
    end.

(** What the user interface can make happen: the mount effect and the
    callbacks wired to the panels, the dock and the stage. *)
Inductive Event : Type :=
| Mounted (st : Stamp)
| PropChange (st : Stamp) (keyOrObj : KeyOrObj) (value0 : value)
| CodeChange (newVal : string)
| Undo (st : Stamp)
| Redo (st : Stamp)
| ToggleMeasurements (st : Stamp)
| ToggleTokens (st : Stamp)
| ToggleView3D
| ToggleWindow (i : Windows.WindowId)
| BringToFront (i : Windows.WindowId)
| CopyCode (st : Stamp)
| StageButtonClick (st : Stamp)
| CodeFocus
| CodeBlur.

Definition handler (ev : Event) : Handler :=
  match ev with
  | Mounted st =>
      fun _ => logEvent st "System Ready. SUS Design System initialized."
  | PropChange st keyOrObj value0 => handlePropChange st keyOrObj value0
  | CodeChange newVal => handleCodeChange newVal
  | Undo st => handleUndo st
  | Redo st => handleRedo st
  | ToggleMeasurements st => handleToggleMeasurements st
  | ToggleTokens st => handleToggleTokens st
  | ToggleView3D => fun rendered => setView3D (Value (negb (view3D rendered)))
  | ToggleWindow i => toggleWindow i
  | BringToFront i => bringToFront i
  | CopyCode st => handleCopyCode st
  | StageButtonClick st => handleStageButtonClick st
  | CodeFocus => fun _ => setIsCodeFocused (Value true)
  | CodeBlur => fun _ => setIsCodeFocused (Value false)
  end.

(** One event: React has rendered the state the previous event left, so the
    handler that runs closes over the state its setters start from. *)
Definition dispatch (s : State) (ev : Event) : State := handler ev s s.

Definition run (evs : list Event) (s : State) : State :=
  fold_left dispatch evs s.

End WithParser.

(** A handler called on its own, as one event. *)
Definition fire (h : Handler) (s : State) : State := h s s.

(** The history operations of the specification, each as one event. *)
Definition apply (newSnapshot : value) (recordHistory : bool) (s : State)
  : State :=
  fire (updateBtnProps newSnapshot recordHistory) s.

Definition undo (st : Stamp) (s : State) : State := fire (handleUndo st) s.
Definition redo (st : Stamp) (s : State) : State := fire (handleRedo st) s.

Definition applies (snapshots : list value) (s : State) : State :=
  fold_left (fun s v => apply v true s) snapshots s.

Definition undos (sts : list Stamp) (s : State) : State :=
  fold_left (fun s st => undo st s) sts s.

Definition redos (sts : list Stamp) (s : State) : State :=
  fold_left (fun s st => redo st s) sts s.

(** [record(message)] of the log sink, and a sequence of such calls. *)
Definition record (call : Stamp * string) (s : State) : State :=
  logEvent (fst call) (snd call) s.

Definition records (calls : list (Stamp * string)) (s : State) : State :=
  fold_left (fun s call => record call s) calls s.

(** *** Views used by the statements and their proofs *)

(** The part of the state the history operations are about. *)
Definition view (s : State) : value * list value * list value :=
  (btnProps s, history s, future s).

Definition undo_view (v : value * list value * list value)
  : value * list value * list value :=
  let '(current, past, future) := v in
  match past with
  | [] => v
  | _ :: _ =>
      (at_index past (List.length past - 1), slice_init past,
       current :: future)
  end.

Definition redo_view (v : value * list value * list value)
  : value * list value * list value :=
  let '(current, past, future) := v in
  match future with
  | [] => v
  | nxt :: rest => (nxt, (past ++ [current])%list, rest)
  end.

Definition entry_of (call : Stamp * string) : LogEntry :=
  mkLogEntry (random_id (fst call)) (time_string (fst call)) (snd call).

(** What a [logEvent] call leaves in the log. *)
Definition logged (st : Stamp) (msg : string) (s : State) : list LogEntry :=
  slice_last 50
    (logs s ++ [mkLogEntry (random_id st) (time_string st) msg])%list.

(** A parser for the examples: [JSON.parse] on the three literal names. *)
Definition parse_literal (text : string) : option value :=
  if String.eqb text "null" then Some JNull
  else if String.eqb text "true" then Some (JBool true)
  else if String.eqb text "false" then Some (JBool false)
  else None.

End App.

(** ** What the panels derive from the state *)

Module Views.
Import JS App.

(** The snapshots the history holds, oldest first: the past, the current
    one, the future. *)
Definition timeline (s : State) : list value :=
  (history s ++ btnProps s :: future s)%list.

(** The props [MetaPrototype] hands to [UndoRedo], which disables a button
    whose prop is false. *)
Definition canUndo (s : State) : bool := (0 <? List.length (history s))%nat.
Definition canRedo (s : State) : bool := (0 <? List.length (future s))%nat.

Definition WindowId_eqb (i j : Windows.WindowId) : bool :=
  match i, j with
  | Windows.control, Windows.control
  | Windows.code, Windows.code
  | Windows.console, Windows.console => true
  | _, _ => false
  end.

(** The enumerable own property [k] of [v], if [v] has one: what object
    spread copies under that name ([length] is not enumerable, a primitive
    other than a string has no such property). *)
Definition own_property (v : value) (k : string) : option value :=
  assoc k (own_props v).

(** The fields of a window record no updater writes. *)
Definition frame (w : Windows.WindowState)
  : Windows.WindowId * string * Z * Z :=
  (Windows.id w, Windows.title w, Windows.x w, Windows.y w).

(** How often a sequence of events toggles window [i], and how often it
    clicks the button on the stage. *)
Definition toggles_of (i : Windows.WindowId) (evs : list Event) : nat :=
  List.length
    (filter (fun ev => match ev with
                       | ToggleWindow j => WindowId_eqb i j
                       | _ => false
                       end) evs).

Definition stage_clicks (evs : list Event) : nat :=
  List.length
    (filter (fun ev => match ev with
                       | StageButtonClick _ => true
                       | _ => false
                       end) evs).

End Views.

(** ** The control panel *)

Module ControlPanel.
Import JS App.

(** [btnProps.k] used as a condition. *)
Definition flag (btnProps : value) (k : string) : bool :=
  truthy (get btnProps k).

Definition currentInteraction (btnProps : value) : string :=
  if flag btnProps "disabled" then "disabled"
  else if flag btnProps "forcedActive" then "active"
  else if flag btnProps "forcedFocus" then "focus"
  else if flag btnProps "forcedHover" then "hover"
  else "default".

(** The object [handleInteractionChange] builds from the value of the state
    selector before it calls [onPropChange]. *)
Definition interaction_updates (val : string) : list (string * value) :=
  let updates :=
    [("disabled", JBool false); ("forcedHover", JBool false);
     ("forcedFocus", JBool false); ("forcedActive", JBool false)] in
  if negb (String.eqb val "default") then
    if String.eqb val "disabled"
    then obj_set "disabled" (JBool true) updates
    else if String.eqb val "hover"
    then obj_set "forcedHover" (JBool true) updates
    else if String.eqb val "focus"
    then obj_set "forcedFocus" (JBool true) updates
    else if String.eqb val "active"
    then obj_set "forcedActive" (JBool true) updates
    else updates
  else updates.

(** [onPropChange] is [handlePropChange]. *)
Definition handleInteractionChange (st : Stamp) (val : string) : Handler :=
  handlePropChange st (inr (interaction_updates val)) JUndefined.

End ControlPanel.

(** ** Shapes of token trees *)

Module TokenTrees.
Import JS Tokens.

(** A value [resolveTokens] keeps as it is: not an object, or [null]. *)
Definition is_leaf (v : value) : bool :=
  negb (typeof_object v && not_null v).

(** A tree in which resolution finds nothing to do: below the root there are
    only leaves and mappings that are not responsive values. *)
Fixpoint resolved (v : value) : bool :=
  match v with
  | JObj ps =>
      forallb
        (fun kv => negb (isResponsiveObject (snd kv)) && resolved (snd kv))
        ps
  | JArr _ => false
  | _ => true
  end.

(** A tree whose responsive values hold leaves only, as the typography table
    does: each responsive value below the root has no object among its
    branches. *)
Fixpoint leaf_branches (v : value) : bool :=
  match v with
  | JObj ps =>
      forallb
        (fun kv =>
           if isResponsiveObject (snd kv)
           then forallb (fun br => is_leaf (snd br)) (own_props (snd kv))
           else leaf_branches (snd kv))
        ps
  | JArr items =>
      forallb
        (fun x =>
           if isResponsiveObject x
           then forallb (fun br => is_leaf (snd br)) (own_props x)
           else leaf_branches x)
        items
  | _ => true
  end.

End TokenTrees.

(** ** The button and the code panel: style tables *)

Module Styles.

(** What [table[key]] finds in an object literal: an own property, a member
    inherited from [Object.prototype], or nothing ([undefined]). *)
Inductive Found (A : Type) : Type :=
| Own (a : A)
| Inherited (name : string)
| Nothing.
Arguments Own {A} a.
Arguments Inherited {A} name.
Arguments Nothing {A}.

Definition Object_prototype_names : list string :=
  ["constructor"; "__defineGetter__"; "__defineSetter__"; "hasOwnProperty";
   "__lookupGetter__"; "__lookupSetter__"; "isPrototypeOf";
   "propertyIsEnumerable"; "toString"; "valueOf"; "__proto__";
   "toLocaleString"].

Fixpoint own {A : Type} (key : string) (table : list (string * A))
  : option A :=
  match table with
  | [] => None
  | (k, a) :: rest => if String.eqb key k then Some a else own key rest
  end.

Definition lookup {A : Type} (table : list (string * A)) (key : string)
  : Found A :=
  match own key table with
  | Some a => Own a
  | None =>
      if existsb (String.eqb key) Object_prototype_names
      then Inherited key else Nothing
  end.

(** [table[key] || fallback].  An entry of the table is truthy, and so is
    every member of [Object.prototype], which then is the result ([inr],
    by its name) in place of an entry. *)
Definition or_else {A : Type} (found : Found A) (fallback : A)
  : A + string :=
  match found with
  | Own a => inl a
  | Inherited name => inr name
  | Nothing => inl fallback
  end.

Record VariantStyle : Type := mkVariant {
  bg : string;
  text : string;
  border : string;
  hover : string
}.

Definition primary (isDark : bool) : VariantStyle :=
  mkVariant (if isDark then "#FFFFFF" else "#0F172A")
            (if isDark then "#0F172A" else "#FFFFFF")
            "transparent"
            (if isDark then "#E2E8F0" else "#334155").

Definition secondary (isDark : bool) : VariantStyle :=
  mkVariant (if isDark then "#334155" else "#F1F5F9")
            (if isDark then "#FFFFFF" else "#0F172A")
            "transparent"
            (if isDark then "#475569" else "#E2E8F0").

Definition tertiary (isDark : bool) : VariantStyle :=
  mkVariant "transparent"
            (if isDark then "#FFFFFF" else "#0F172A")
            (if isDark then "#475569" else "#CBD5E1")
            (if isDark then "#1E293B" else "#F8FAFC").

Definition ghost (isDark : bool) : VariantStyle :=
  mkVariant "transparent"
            (if isDark then "#FFFFFF" else "#0F172A")
            "transparent"
            (if isDark then "#334155" else "#E2E8F0").

Definition success (isDark : bool) : VariantStyle :=
  mkVariant (if isDark then "#166534" else "#10B981")
            "#FFFFFF"
            "transparent"
            (if isDark then "#14532D" else "#059669").

Definition fail (isDark : bool) : VariantStyle :=
  mkVariant (if isDark then "#991B1B" else "#EF4444")
            "#FFFFFF"
            "transparent"
            (if isDark then "#7F1D1D" else "#DC2626").

(** [getThemeStyles] of the button: [isDark] is [themeName === 'dark'], and
    [type] the property key the [type] prop converts to. *)
Definition getThemeStyles (isDark : bool) (type : string)
  : VariantStyle + string :=
  let colors :=
    [("primary", primary isDark); ("secondary", secondary isDark);
     ("tertiary", tertiary isDark); ("ghost", ghost isDark);
     ("success", success isDark); ("fail", fail isDark)] in
  or_else (lookup colors type) (primary isDark).

(** [getResolvedColors] of the code panel, on [btnProps.type]. *)
Definition getResolvedColors (isDark : bool) (type : string)
  : VariantStyle + string :=
  let colors :=
    [("primary", primary isDark); ("secondary", secondary isDark);
     ("tertiary", tertiary isDark);
     ("success", success isDark); ("fail", fail isDark)] in
  or_else (lookup colors type) (primary isDark).

Record SizeStyle : Type := mkSize {
  fontSize : string;
  lineHeight : string;
  padding : string;
  height : string;
  gap : string
}.

Definition SIZES : list (string * SizeStyle) :=
  [("xl", mkSize "20px" "24px" "16px 32px" "56px" "12px");
   ("l", mkSize "16px" "20px" "12px 24px" "48px" "8px");
   ("m", mkSize "16px" "20px" "10px 20px" "40px" "8px");
   ("s", mkSize "14px" "18px" "8px 16px" "32px" "6px");
   ("xs", mkSize "14px" "18px" "6px 12px" "28px" "4px")].

(** [SIZES[size] || SIZES.m] of the button. *)
Definition sizeStyle (size : string) : SizeStyle + string :=
  or_else (lookup SIZES size)
    (mkSize "16px" "20px" "10px 20px" "40px" "8px").

(** [getFontSize] of the code panel, on [btnProps.size]. *)
Definition getFontSize (size : string) : string + string :=
  let sizes :=
    [("xl", "20px"); ("l", "16px"); ("m", "16px"); ("s", "14px");
     ("xs", "14px")] in
  or_else (lookup sizes size) "16px".

End Styles.

(** ** The button: radius of the focus ring *)

Module FocusRing.

(** Strings are read as ASCII text. *)
Definition code (c : ascii) : nat := nat_of_ascii c.

Definition between (lo hi : nat) (c : ascii) : bool :=
  Nat.leb lo (code c) && Nat.leb (code c) hi.

(** Tab, line feed, vertical tab, form feed, carriage return, space. *)
Definition is_space (c : ascii) : bool :=
  between 9 13 c || Nat.eqb (code c) 32.

Definition is_digit (c : ascii) : bool := between 48 57 c.

Definition is_hex_digit (c : ascii) : bool :=
  is_digit c || between 97 102 c || between 65 70 c.

Definition lower_hex (c : ascii) : ascii :=
  if between 65 70 c then ascii_of_nat (code c + 32) else c.

Fixpoint trim_start (s : string) : string :=
  match s with
  | String c rest => if is_space c then trim_start rest else s
  | EmptyString => s
  end.

Fixpoint take_while (f : ascii -> bool) (s : string) : string :=
  match s with
  | String c rest => if f c then String c (take_while f rest) else ""
  | EmptyString => ""
  end.

Fixpoint map_chars (f : ascii -> ascii) (s : string) : string :=
  match s with
  | String c rest => String (f c) (map_chars f rest)
  | EmptyString => ""
  end.

(** [s.includes(sub)] *)
Fixpoint includes (s sub : string) : bool :=
  String.prefix sub s
  || match s with
     | String _ rest => includes rest sub
     | EmptyString => false
     end.

(** [parseInt(s)] with no radix; [None] is [NaN].  Leading white space is
    skipped, then a sign, then [0x] or [0X] selects base 16; the longest run
    of digits of the base is the value, and there must be one. *)
Definition parseInt (s : string) : option Z :=
  let s := trim_start s in
  let signed :=
    match s with
    | String "-" rest => (true, rest)
    | String "+" rest => (false, rest)
    | _ => (false, s)
    end in
  let negative := fst signed in
  let s := snd signed in
  let magnitude :=
    match s with
    | String "0" (String x rest) =>
        if Ascii.eqb x "x" || Ascii.eqb x "X"
        then
          match take_while is_hex_digit rest with
          | EmptyString => None
          | digits =>
              option_map N.of_hex_uint
                (HexadecimalString.NilEmpty.uint_of_string
                   (map_chars lower_hex digits))
          end
        else
          option_map N.of_uint
            (NilEmpty.uint_of_string (take_while is_digit s))
    | _ =>
        match take_while is_digit s with
        | EmptyString => None
        | digits => option_map N.of_uint (NilEmpty.uint_of_string digits)
        end
    end in
  option_map (fun m => if negative then (- Z.of_N m)%Z else Z.of_N m)
    magnitude.

(** [getFocusRadius], for a number below 2^53. *)
Definition getFocusRadius (r : string) : string :=
  if includes r "9999" then "9999px"
  else
    match parseInt r with
    | None => r
    | Some val => JS.string_of_Z (val + 4) ++ "px"
    end.

End FocusRing.

(** ** The calls the control panel makes *)

Module PanelEvents.
Import JS App ControlPanel.

(** The selectors of the panel, each with the values it offers. *)
Definition selectors : list (string * list string) :=
  [("type", ["primary"; "secondary"; "tertiary"; "success"; "fail"]);
   ("size", ["xl"; "l"; "m"; "s"; "xs"]);
   ("radius", ["Sharp"; "4px"; "8px"; "16px"; "Pill"]);
   ("iconPlacement", ["none"; "left"; "right"; "iconOnly"]);
   ("icon", ["ph-check"; "ph-arrow-right"; "ph-plus"; "ph-trash";
             "ph-envelope"; "ph-magnifying-glass"; "ph-x"])].

Definition interaction_options : list string :=
  ["default"; "hover"; "focus"; "active"; "disabled"].

(** What the user can do in the panel to the properties: type a label, pick
    a value in a selector, pick an interaction state. *)
Inductive PanelChange : Type :=
| TypeLabel (text : string)
| Pick (name : string) (choice : string)
| PickInteraction (val : string).

(** The selector exists and offers the value. *)
Definition offered (c : PanelChange) : bool :=
  match c with
  | TypeLabel _ => true
  | Pick name choice =>
      match Styles.own name selectors with
      | Some choices => existsb (String.eqb choice) choices
      | None => false
      end
  | PickInteraction val => existsb (String.eqb val) interaction_options
  end.

(** The call of [onPropChange] the control makes ([e.target.value] is a
    string), as an event of the orchestrator. *)
Definition event_of (st : Stamp) (c : PanelChange) : Event :=
  match c with
  | TypeLabel text => PropChange st (inl "label") (JStr text)
  | Pick name choice => PropChange st (inl name) (JStr choice)
  | PickInteraction val =>
      PropChange st (inr (interaction_updates val)) JUndefined
  end.

End PanelEvents.

(** * Properties *)

(** ** Token resolution *)

Module TokensSpec.
Import JS Tokens.

Lemma assoc_in_keys (k : string) (ps : list (string * value)) :
  (match assoc k ps with Some _ => true | None => false end)
  = existsb (String.eqb k) (map fst ps).
Proof.
  induction ps as [|[k' x] ps IH]; simpl; [reflexivity|].
  destruct (String.eqb k k'); simpl; [reflexivity | exact IH].
Qed.

Lemma all_digits_uint (d : Decimal.uint) :
  all_digits (NilEmpty.string_of_uint d) = true.
Proof. induction d; simpl; auto. Qed.

Lemma assoc_combine_other (k : string) (ks : list string)
  (xs : list value) :
  Forall (fun k' => k' <> k) ks -> assoc k (combine ks xs) = None.
Proof.
  revert xs. induction ks as [|k' ks IH]; intros xs H; [reflexivity|].
  destruct xs as [|x xs]; [reflexivity|]. inversion H as [|? ? Hk Hks]; subst.
  cbn [combine assoc]. destruct (String.eqb_spec k k') as [E | _].
  - congruence.
  - apply IH. exact Hks.
Qed.

Lemma assoc_indexed_name (k : string) (items : list value) :
  all_digits k = false -> assoc k (indexed items) = None.
Proof.
  intros Hk. unfold indexed. apply assoc_combine_other.
  apply Forall_forall. intros k' Hin E. subst k'.
  apply in_map_iff in Hin. destruct Hin as (i & Hi & _).
  unfold index_key in Hi. rewrite <- Hi, all_digits_uint in Hk.
  discriminate.
Qed.

Lemma isResponsiveObject_mapping (v : value) :
  isResponsiveObject v = is_responsive_mapping v.
Proof.
  destruct v as [| | b | n | s | items | ps]; try reflexivity;
    try (unfold isResponsiveObject; cbn; rewrite andb_false_r; reflexivity).
  { unfold isResponsiveObject, has_key. cbn [own_props].
    rewrite !assoc_indexed_name by reflexivity. reflexivity. }
  unfold isResponsiveObject, is_responsive_mapping, has_key, reserved.
  cbn [own_props].
  cbn [truthy typeof_object andb existsb].
  rewrite !assoc_in_keys, orb_false_r, orb_assoc. reflexivity.
Qed.

Lemma pick_fallback (v : value) (b : Breakpoint) :
  pick v b = fallback v [key b; "desktop"; "tablet"; "mobile"].
Proof.
  unfold pick, coalesce. cbn [fallback].
  destruct (nullish (get v (key b))) eqn:Hb; [|rewrite !Hb; reflexivity].
  destruct (nullish (get v "desktop")) eqn:Hd; [|rewrite !Hd; reflexivity].
  destruct (nullish (get v "tablet")) eqn:Ht; reflexivity.
Qed.

(** The unfolding of [resolveTokens] at an object: one output property per
    input property, same name, same place. *)
Lemma resolveTokens_object (ps : list (string * value)) (b : Breakpoint) :
  resolveTokens (JObj ps) b
  = JObj (map (fun kv => (fst kv, resolve_property b (snd kv))) ps).
Proof.
  cbn [resolveTokens]. f_equal. apply map_ext. intros [k v]. cbn [fst snd].
  f_equal. unfold resolve_property.
  rewrite <- isResponsiveObject_mapping, <- pick_fallback.
  destruct (isResponsiveObject v); [reflexivity|].
  destruct v; reflexivity.
Qed.

Lemma resolveTokens_array (items : list value) (b : Breakpoint) :
  resolveTokens (JArr items) b
  = JObj (indexed (map (resolve_property b) items)).
Proof.
  cbn [resolveTokens]. unfold indexed. rewrite length_map. do 2 f_equal.
  apply map_ext. intros v. unfold resolve_property.
  rewrite <- isResponsiveObject_mapping, <- pick_fallback.
  destruct (isResponsiveObject v); [reflexivity|].
  destruct v; reflexivity.
Qed.

Lemma keys_indexed {A : Type} (l : list A) :
  map fst (indexed l) = map index_key (seq 0 (List.length l)).
Proof.
  unfold indexed.
  assert (H : forall (ks : list string) (xs : list A),
             List.length ks = List.length xs -> map fst (combine ks xs) = ks).
  { induction ks as [|k ks IH]; intros [|x xs] E; simpl in *;
      try discriminate; [reflexivity|]. f_equal. apply IH. lia. }
  apply H. rewrite length_map, length_seq. reflexivity.
Qed.

(** Walking preserves the property names, in order, whatever is walked. *)
Lemma resolveTokens_keys (v : value) (b : Breakpoint) :
  map fst (own_props (resolveTokens v b)) = map fst (own_props v).
Proof.
  destruct v as [| | c | n | s | items | ps];
    try reflexivity.
  - rewrite resolveTokens_array. cbn [own_props].
    rewrite !keys_indexed, length_map. reflexivity.
  - rewrite resolveTokens_object. cbn [own_props].
    rewrite map_map. reflexivity.
Qed.

Lemma nth_error_resolved (ps : list (string * value)) (b : Breakpoint)
  (i : nat) (k : string) (v : value) :
  nth_error ps i = Some (k, v) ->
  nth_error (own_props (resolveTokens (JObj ps) b)) i
  = Some (k, resolve_property b v).
Proof.
  intros H. rewrite resolveTokens_object. cbn [own_props].
  rewrite nth_error_map, H. reflexivity.
Qed.

(** C4, as stated, fails at the root: [resolveTokens] tests the properties of
    the object it is given, never that object itself, so
    [resolveTokens({mobile:'a', desktop:'b'}, 'tablet')] is a copy of its
    argument and not ['b']. *)
Lemma C4_root_is_not_a_responsive_value :
  resolveTokens (JObj [("mobile", JStr "a"); ("desktop", JStr "b")]) tablet
  = JObj [("mobile", JStr "a"); ("desktop", JStr "b")]
  /\ resolveTokens (JObj [("mobile", JStr "a"); ("desktop", JStr "b")]) tablet
     <> JStr "b".
Proof. split; [reflexivity | discriminate]. Qed.

(** C4, amended: for every mapping [ps] and breakpoint [b], [resolveTokens]
    returns a mapping with the same property names in the same order, in
    which each property value that is a responsive value (a mapping with at
    least one reserved key) is replaced by its value for [b], falling back in
    the order desktop, tablet, mobile when that value is missing or null,
    each other object is walked recursively (names preserved at every
    level), and each leaf is kept; the root itself is not treated as a
    responsive value.  With the node under a property [k],
    [{mobile:'a', desktop:'b'}] resolves for tablet to ['b'] and
    [{mobile:'a', tablet:'c', desktop:'b'}] to ['c']. *)
Theorem C4_resolve_walks_properties :
  forall (ps : list (string * value)) (b : Breakpoint),
    resolveTokens (JObj ps) b
    = JObj (map (fun kv => (fst kv, resolve_property b (snd kv))) ps)
    /\ (forall v : value,
          map fst (own_props (resolveTokens v b)) = map fst (own_props v))
    /\ resolveTokens
         (JObj [("k", JObj [("mobile", JStr "a"); ("desktop", JStr "b")])])
         tablet
       = JObj [("k", JStr "b")]
    /\ resolveTokens
         (JObj [("k", JObj [("mobile", JStr "a"); ("tablet", JStr "c");
                            ("desktop", JStr "b")])])
         tablet
       = JObj [("k", JStr "c")].
Proof.
  intros ps b. split; [apply resolveTokens_object|].
  split; [intros v; apply resolveTokens_keys|].
  split; reflexivity.
Qed.

Lemma pick_is_a_branch (v : value) (b : Breakpoint) :
  exists k : string,
    In k [key b; "desktop"; "tablet"; "mobile"] /\ pick v b = get v k.
Proof.
  rewrite pick_fallback. cbn [fallback].
  destruct (nullish (get v (key b)));
    [|exists (key b); split; [left; reflexivity | reflexivity]].
  destruct (nullish (get v "desktop"));
    [|exists "desktop"; split; [right; left; reflexivity | reflexivity]].
  destruct (nullish (get v "tablet"));
    [exists "mobile" | exists "tablet"];
    (split; [simpl; tauto | reflexivity]).
Qed.

(** C10, as stated for every responsive node, fails at the root: the
    mapping handed to [resolveTokens] is walked even when it has a reserved
    key, so the branch [isResponsiveObject] and [pick] would select from
    [{desktop: {size: {mobile: 's'}}}] comes out resolved, under its own
    name, and not as it is. *)
Lemma C10_responsive_root_is_walked :
  let branch := JObj [("size", JObj [("mobile", JStr "s")])] in
  let root := JObj [("desktop", branch)] in
  isResponsiveObject root = true
  /\ pick root mobile = branch
  /\ resolveTokens root mobile
     = JObj [("desktop", JObj [("size", JStr "s")])]
  /\ resolveTokens root mobile <> pick root mobile
  /\ get (resolveTokens root mobile) "desktop" <> branch.
Proof. repeat split; discriminate. Qed.

(** C10, amended: where a property value [v] of the walked mapping (a node
    below the root) is a responsive value, the output holds under the same
    name the branch [pick] selects, which is one of the property values of
    [v] itself, read as it is: no [resolveTokens] is applied to it.  So a
    mapping found under [desktop] of such a node comes out whole, responsive
    sub-nodes included, while the same mapping under a name that is not
    reserved is walked. *)
Theorem C10_selected_branch_is_returned_unresolved :
  forall (ps : list (string * value)) (i : nat) (k : string) (v : value)
         (b : Breakpoint),
    nth_error ps i = Some (k, v) ->
    isResponsiveObject v = true ->
    nth_error (own_props (resolveTokens (JObj ps) b)) i = Some (k, pick v b)
    /\ (exists k' : string,
          In k' [key b; "desktop"; "tablet"; "mobile"]
          /\ pick v b = get v k')
    /\ (forall q : list (string * value),
          resolveTokens (JObj [(k, JObj [("desktop", JObj q)])]) b
          = JObj [(k, JObj q)])
    /\ resolveTokens
         (JObj [(k, JObj [("desktop",
                           JObj [("size", JObj [("mobile", JStr "s")])])])])
         mobile
       = JObj [(k, JObj [("size", JObj [("mobile", JStr "s")])])]
    /\ resolveTokens
         (JObj [(k, JObj [("base",
                           JObj [("size", JObj [("mobile", JStr "s")])])])])
         mobile
       = JObj [(k, JObj [("base", JObj [("size", JStr "s")])])].
Proof.
  intros ps i k v b Hi Hresp. split.
  - rewrite (nth_error_resolved ps b i k v Hi). unfold resolve_property.
    rewrite <- isResponsiveObject_mapping, Hresp, pick_fallback. reflexivity.
  - split; [apply pick_is_a_branch|].
    split; [|split; reflexivity].
    intros q. destruct b; reflexivity.
Qed.

Lemma C10_witness :
  let font :=
    JObj [("mobile", JStr "14px"); ("tablet", JStr "16px")] in
  nth_error [("fontSize", font)] 0 = Some ("fontSize", font)
  /\ isResponsiveObject font = true
  /\ nth_error
       (own_props (resolveTokens (JObj [("fontSize", font)]) desktop)) 0
     = Some ("fontSize", pick font desktop).
Proof.
  intros font. split; [reflexivity|]. split; [reflexivity|].
  apply (C10_selected_branch_is_returned_unresolved
           [("fontSize", font)] 0 "fontSize" font desktop);
    reflexivity.
Defined.

End TokensSpec.

(** ** History *)

Module HistorySpec.
Import JS App.

Local Open Scope list_scope.

Lemma slice_init_snoc {A : Type} (l : list A) (a : A) :
  slice_init (l ++ [a]) = l.
Proof.
  unfold slice_init. rewrite length_app. simpl.
  replace (List.length l + 1 - 1)%nat with (List.length l + 0)%nat by lia.
  rewrite firstn_app_2. simpl. apply app_nil_r.
Qed.

Lemma at_index_snoc (l : list value) (a : value) :
  at_index (l ++ [a]) (List.length (l ++ [a]) - 1) = a.
Proof.
  unfold at_index. rewrite length_app. simpl.
  replace (List.length l + 1 - 1)%nat with (List.length l) by lia.
  rewrite app_nth2 by lia. rewrite Nat.sub_diag. reflexivity.
Qed.

Lemma snoc_slice_init (l : list value) :
  l <> [] -> slice_init l ++ [at_index l (List.length l - 1)] = l.
Proof.
  intros H. destruct (exists_last H) as (l' & a & ->).
  rewrite slice_init_snoc, at_index_snoc. reflexivity.
Qed.

Lemma view_undo (st : Stamp) (s : State) :
  view (undo st s) = undo_view (view s).
Proof.
  unfold undo, fire, handleUndo, view, undo_view.
  destruct (history s) as [|h hs] eqn:E; [cbn; unfold skip; rewrite ?E|];
    reflexivity.
Qed.

Lemma view_redo (st : Stamp) (s : State) :
  view (redo st s) = redo_view (view s).
Proof.
  unfold redo, fire, handleRedo, view, redo_view.
  destruct (future s) as [|f fs] eqn:E; [cbn; unfold skip; rewrite ?E|];
    reflexivity.
Qed.

Lemma view_apply (v : value) (s : State) :
  view (apply v true s) = (v, history s ++ [btnProps s], []).
Proof. reflexivity. Qed.

(** The two handlers that call [updateBtnProps] act on the history as
    [apply] with [recordHistory = true] does. *)
Lemma view_prop_change (JSON_parse : string -> option value) (st : Stamp)
  (keyOrObj : KeyOrObj) (v : value) (s : State) :
  exists newProps : value,
    view (dispatch JSON_parse s (PropChange st keyOrObj v))
    = view (apply newProps true s).
Proof. destruct keyOrObj; eexists; reflexivity. Qed.

Lemma view_code_change (JSON_parse : string -> option value)
  (newVal : string) (parsed : value) (s : State) :
  JSON_parse newVal = Some parsed ->
  view (dispatch JSON_parse s (CodeChange newVal))
  = view (apply parsed true s).
Proof.
  intros H. unfold dispatch, handler, handleCodeChange, andThen.
  rewrite H. reflexivity.
Qed.

Lemma view_undos (sts : list Stamp) (s : State) :
  view (undos sts s) = Nat.iter (List.length sts) undo_view (view s).
Proof.
  revert s. induction sts as [|st sts IH]; intros s; [reflexivity|].
  cbn [undos fold_left List.length]. fold (undos sts (undo st s)).
  rewrite IH, view_undo, Nat.iter_succ_r. reflexivity.
Qed.

Lemma view_redos (sts : list Stamp) (s : State) :
  view (redos sts s) = Nat.iter (List.length sts) redo_view (view s).
Proof.
  revert s. induction sts as [|st sts IH]; intros s; [reflexivity|].
  cbn [redos fold_left List.length]. fold (redos sts (redo st s)).
  rewrite IH, view_redo, Nat.iter_succ_r. reflexivity.
Qed.

Lemma view_applies (snapshots : list value) (s : State) :
  snd (view (applies snapshots s))
  = match snapshots with [] => future s | _ :: _ => [] end
  /\ List.length (snd (fst (view (applies snapshots s))))
     = (List.length (history s) + List.length snapshots)%nat.
Proof.
  revert s. induction snapshots as [|v vs IH]; intros s.
  - simpl. split; [reflexivity | lia].
  - cbn [applies fold_left]. fold (applies vs (apply v true s)).
    destruct (IH (apply v true s)) as [Hf Hl]. split.
    + rewrite Hf. destruct vs; reflexivity.
    + rewrite Hl. cbn [apply fire updateBtnProps andThen setHistory setFuture
                        setBtnProps next history List.length].
      rewrite length_app. simpl. lia.
Qed.

(** One redo cancels one undo that had something to undo. *)
Lemma redo_undo_view (c : value) (past future : list value) :
  past <> [] -> redo_view (undo_view (c, past, future)) = (c, past, future).
Proof.
  intros H. unfold undo_view. destruct past as [|h hs] eqn:E; [congruence|].
  rewrite <- E in *. cbn [redo_view]. rewrite snoc_slice_init by exact H.
  reflexivity.
Qed.

Lemma undo_view_length (c : value) (past future : list value) :
  List.length (snd (fst (undo_view (c, past, future))))
  = (List.length past - 1)%nat.
Proof.
  unfold undo_view. destruct past as [|h hs] eqn:E; [reflexivity|].
  rewrite <- E. cbn [fst snd]. unfold slice_init.
  rewrite length_firstn. lia.
Qed.

Lemma redos_undos_view (n : nat) :
  forall (c : value) (past future : list value),
    (n <= List.length past)%nat ->
    Nat.iter n redo_view (Nat.iter n undo_view (c, past, future))
    = (c, past, future).
Proof.
  induction n as [|n IH]; intros c past future Hn; [reflexivity|].
  rewrite (@Nat.iter_succ_r n _ undo_view), Nat.iter_succ.
  destruct (undo_view (c, past, future)) as [[c' past'] future'] eqn:E.
  rewrite IH.
  - rewrite <- E. apply redo_undo_view. destruct past; simpl in *; [lia|].
    discriminate.
  - pose proof (undo_view_length c past future) as L. rewrite E in L.
    cbn [fst snd] in L. lia.
Qed.

(** C1: after any sequence of history-recording applies from the initial
    state, N undos followed by N redos, N at most the number of applies,
    bring back the snapshot that was current before the undos, with the same
    past and an empty future. *)
Theorem C1_undos_then_redos_restore :
  forall (snapshots : list value) (us rs : list Stamp),
    List.length us = List.length rs ->
    (List.length us <= List.length snapshots)%nat ->
    let s := applies snapshots initial in
    let s' := redos rs (undos us s) in
    btnProps s' = btnProps s /\ history s' = history s /\ future s' = [].
Proof.
  intros snapshots us rs Hlen Hn s s'.
  destruct (view_applies snapshots initial) as [Hfut Hpast].
  fold s in Hfut, Hpast. cbn [view fst snd] in Hfut, Hpast.
  assert (Hs : future s = []) by (rewrite Hfut; destruct snapshots; reflexivity).
  assert (Hv : view s' = view s).
  { unfold s'. rewrite view_redos, view_undos, <- Hlen. unfold view at 1 2.
    apply redos_undos_view. rewrite Hpast. simpl. exact Hn. }
  unfold view in Hv. injection Hv as Hc Hp Hf.
  repeat split; congruence.
Qed.

Lemma C1_witness :
  let st := mkStamp "k3x9q1z7a" "10:00:00" in
  let s := applies [JNum 1; JNum 2; JNum 3] initial in
  let s' := redos [st; st] (undos [st; st] s) in
  btnProps s' = btnProps s /\ history s' = history s /\ future s' = [].
Proof.
  intros st.
  apply (C1_undos_then_redos_restore [JNum 1; JNum 2; JNum 3]
           [st; st] [st; st]);
    [reflexivity | simpl; lia].
Defined.

(** The scenario of the specification, through the property panel: set the
    size to l, undo, then set the label. *)
Example size_then_undo_then_label :
  let st := mkStamp "k3x9q1z7a" "10:00:00" in
  let s1 := dispatch parse_literal initial
              (PropChange st (inl "size") (JStr "l")) in
  let s2 := dispatch parse_literal s1 (Undo st) in
  let s3 := dispatch parse_literal s2
              (PropChange st (inl "label") (JStr "X")) in
  (get (btnProps s1) "size" = JStr "l"
   /\ List.length (history s1) = 1%nat /\ List.length (future s1) = 0%nat)
  /\ (get (btnProps s2) "size" = JStr "m"
      /\ List.length (history s2) = 0%nat /\ List.length (future s2) = 1%nat)
  /\ (get (btnProps s3) "label" = JStr "X" /\ future s3 = [])
  /\ map message (logs s3)
     = ["Prop updated: size = l"; "Undo performed";
        "Prop updated: label = X"]%string.
Proof. repeat split. Qed.

(** C2: an apply with [recordHistory = true] pushes the snapshot that was
    current onto the past, empties the future whatever it held, and makes
    the new snapshot current; with [recordHistory = false] it only replaces
    the current snapshot. *)
Theorem C2_apply_records_or_replaces :
  forall (s : State) (newSnapshot : value),
    (let s' := apply newSnapshot true s in
     btnProps s' = newSnapshot
     /\ history s' = history s ++ [btnProps s]
     /\ future s' = [])
    /\ (let s' := apply newSnapshot false s in
        btnProps s' = newSnapshot
        /\ history s' = history s
        /\ future s' = future s).
Proof. intros s newSnapshot. repeat split. Qed.

Lemma undo_logs_once (st : Stamp) (s : State) :
  history s <> [] -> logs (undo st s) = logged st "Undo performed" s.
Proof.
  intros H. unfold undo, fire, handleUndo.
  destruct (history s); [congruence | reflexivity].
Qed.

Lemma redo_logs_once (st : Stamp) (s : State) :
  future s <> [] -> logs (redo st s) = logged st "Redo performed" s.
Proof.
  intros H. unfold redo, fire, handleRedo.
  destruct (future s); [congruence | reflexivity].
Qed.

Lemma prop_change_logs_once (st : Stamp) (name : string) (v : value)
  (s : State) :
  logs (fire (handlePropChange st (inl name) v) s)
  = logged st ("Prop updated: " ++ name ++ " = " ++ ToString v)%string s.
Proof. reflexivity. Qed.

Lemma state_update_logs_once (st : Stamp) (updates : list (string * value))
  (s : State) :
  logs (fire (handlePropChange st (inr updates) JUndefined) s)
  = logged st
      ("State updated: " ++ String.concat ", " (map fst updates))%string s.
Proof. reflexivity. Qed.

(** An edit of the code panel never reaches [logEvent], parsed or not. *)
Lemma code_edit_leaves_logs (JSON_parse : string -> option value)
  (newVal : string) (s : State) :
  logs (fire (handleCodeChange JSON_parse newVal) s) = logs s.
Proof.
  unfold fire, handleCodeChange, andThen.
  destruct (JSON_parse newVal); reflexivity.
Qed.

(** C5 at the code panel: typing the JSON text [true] replaces the current
    snapshot and records history, and the log stays as it was; the property
    panel, undo and redo each log one entry (lemmas above). *)
Theorem C5_code_edit_applies_without_log_entry :
  let s' := dispatch parse_literal initial (CodeChange "true") in
  btnProps s' = JBool true
  /\ btnProps initial <> JBool true
  /\ history s' = [btnProps initial]
  /\ logs s' = logs initial.
Proof. repeat split. discriminate. Qed.

(** C6: undo with an empty past and redo with an empty future change
    nothing: not the current snapshot, not the stacks, not the log. *)
Theorem C6_undo_redo_on_empty_are_noops :
  forall (st : Stamp) (s : State),
    (history s = [] -> undo st s = s)
    /\ (future s = [] -> redo st s = s).
Proof.
  intros st s. split; intros H.
  - unfold undo, fire, handleUndo. rewrite H. reflexivity.
  - unfold redo, fire, handleRedo. rewrite H. reflexivity.
Qed.

Lemma C6_witness :
  let st := mkStamp "k3x9q1z7a" "10:00:00" in
  undo st initial = initial /\ redo st initial = initial.
Proof.
  intros st.
  split; apply (C6_undo_redo_on_empty_are_noops st initial); reflexivity.
Defined.

(** C7: an edit of the code panel whose text parses is applied as the new
    current snapshot with history recorded; one that does not parse changes
    the text buffer only. *)
Theorem C7_code_edit_applies_only_parsed_text :
  forall (JSON_parse : string -> option value) (newVal : string) (s : State),
    let s' := dispatch JSON_parse s (CodeChange newVal) in
    (forall parsed : value,
        JSON_parse newVal = Some parsed ->
        btnProps s' = parsed
        /\ history s' = history s ++ [btnProps s]
        /\ future s' = []
        /\ codeText s' = newVal)
    /\ (JSON_parse newVal = None ->
        btnProps s' = btnProps s
        /\ history s' = history s
        /\ future s' = future s
        /\ codeText s' = newVal
        /\ s' = setCodeText (Value newVal) s).
Proof.
  intros JSON_parse newVal s s'. unfold s', dispatch, handler, handleCodeChange,
    andThen.
  split.
  - intros parsed H. rewrite H. repeat split.
  - intros H. rewrite H. repeat split.
Qed.

Lemma C7_witness :
  (let s' := dispatch parse_literal initial (CodeChange "true") in
   btnProps s' = JBool true
   /\ history s' = history initial ++ [btnProps initial]
   /\ future s' = []
   /\ codeText s' = "true"%string)
  /\ (let s' := dispatch parse_literal initial (CodeChange "tru") in
      btnProps s' = btnProps initial
      /\ history s' = history initial
      /\ future s' = future initial
      /\ codeText s' = "tru"%string
      /\ s' = setCodeText (Value "tru"%string) initial).
Proof.
  split.
  - apply (C7_code_edit_applies_only_parsed_text parse_literal "true" initial).
    reflexivity.
  - apply (C7_code_edit_applies_only_parsed_text parse_literal "tru" initial).
    reflexivity.
Defined.

End HistorySpec.

(** ** The event log *)

Module LogSpec.
Import JS App.

Local Open Scope list_scope.

Lemma slice_last_short {A : Type} (n : nat) (l : list A) :
  (List.length l <= n)%nat -> slice_last n l = l.
Proof.
  intros H. unfold slice_last.
  replace (List.length l - n)%nat with 0%nat by lia. reflexivity.
Qed.

Lemma length_slice_last {A : Type} (n : nat) (l : list A) :
  List.length (slice_last n l) = Nat.min n (List.length l).
Proof. unfold slice_last. rewrite length_skipn. lia. Qed.

(** Truncating early does not change what a later truncation keeps. *)
Lemma slice_last_app {A : Type} (n : nat) (l r : list A) :
  slice_last n (slice_last n l ++ r) = slice_last n (l ++ r).
Proof.
  destruct (Nat.le_gt_cases (List.length l) n) as [Hle | Hgt].
  - rewrite (slice_last_short n l Hle). reflexivity.
  - unfold slice_last at 1 3. rewrite !length_app, length_slice_last.
    replace (Nat.min n (List.length l) + List.length r - n)%nat
      with (List.length r) by lia.
    replace (List.length l + List.length r - n)%nat
      with (List.length r + (List.length l - n))%nat by lia.
    rewrite <- skipn_skipn. f_equal. unfold slice_last.
    rewrite skipn_app.
    replace (List.length l - n - List.length l)%nat with 0%nat by lia.
    reflexivity.
Qed.

Lemma logs_record (call : Stamp * string) (s : State) :
  logs (record call s) = slice_last 50 (logs s ++ [entry_of call]).
Proof. reflexivity. Qed.

Lemma logs_records (calls : list (Stamp * string)) (s : State) :
  (List.length (logs s) <= 50)%nat ->
  logs (records calls s) = slice_last 50 (logs s ++ map entry_of calls).
Proof.
  revert s. induction calls as [|call calls IH]; intros s H.
  - cbn [records fold_left map]. rewrite app_nil_r.
    symmetry. apply slice_last_short. exact H.
  - cbn [records fold_left map]. fold (records calls (record call s)).
    rewrite IH.
    + rewrite logs_record, slice_last_app, <- app_assoc. reflexivity.
    + rewrite logs_record, length_slice_last. lia.
Qed.

Lemma map_slice_last {A B : Type} (f : A -> B) (n : nat) (l : list A) :
  map f (slice_last n l) = slice_last n (map f l).
Proof. unfold slice_last. rewrite length_map. symmetry. apply skipn_map. Qed.

Lemma slice_last_snoc {A : Type} (n : nat) (l : list A) (a : A) :
  (1 <= n)%nat -> exists kept : list A, slice_last n (l ++ [a]) = kept ++ [a].
Proof.
  intros Hn. unfold slice_last. rewrite length_app, skipn_app. simpl.
  replace (List.length l + 1 - n - List.length l)%nat with 0%nat by lia.
  eexists. reflexivity.
Qed.

(** C9: the log never holds more than 50 entries; it holds the messages of
    the most recent 50 calls in call order, so after 60 calls the first ten
    are gone; and each call leaves its own entry last. *)
Theorem C9_log_keeps_the_last_fifty :
  forall calls : list (Stamp * string),
    let s := records calls initial in
    (List.length (logs s) <= 50)%nat
    /\ logs s = slice_last 50 (map entry_of calls)
    /\ map message (logs s) = slice_last 50 (map snd calls)
    /\ (List.length calls = 60%nat ->
        map message (logs s) = skipn 10 (map snd calls))
    /\ (forall call : Stamp * string,
          (List.length (logs (record call s)) <= 50)%nat
          /\ exists kept : list LogEntry,
               logs (record call s) = kept ++ [entry_of call]).
Proof.
  intros calls s.
  assert (H : logs s = slice_last 50 (map entry_of calls)).
  { unfold s. rewrite logs_records by (simpl; lia). reflexivity. }
  assert (Hm : map message (logs s) = slice_last 50 (map snd calls)).
  { rewrite H, map_slice_last, map_map. reflexivity. }
  split; [rewrite H, length_slice_last; lia|].
  split; [exact H|]. split; [exact Hm|]. split.
  - intros H60. rewrite Hm. unfold slice_last. rewrite length_map, H60.
    reflexivity.
  - intros call. rewrite logs_record. split.
    + rewrite length_slice_last. lia.
    + apply slice_last_snoc. lia.
Qed.

Lemma C9_witness :
  let st := mkStamp "k3x9q1z7a" "10:00:00" in
  let calls := map (fun i => (st, index_key i)) (seq 0 60) in
  List.length calls = 60%nat
  /\ map message (logs (records calls initial))
     = map index_key (seq 10 50).
Proof.
  intros st calls. split; [reflexivity|].
  destruct (C9_log_keeps_the_last_fifty calls) as (_ & _ & _ & H & _).
  rewrite (H eq_refl). reflexivity.
Defined.

(** Every handler writes the log through [logEvent] or not at all, so the
    bound holds in every state the interface can reach. *)
Lemma logs_dispatch (JSON_parse : string -> option value) (s : State)
  (ev : Event) :
  logs (dispatch JSON_parse s ev) = logs s
  \/ exists e : LogEntry,
       logs (dispatch JSON_parse s ev) = slice_last 50 (logs s ++ [e]).
Proof.
  destruct ev; unfold dispatch, handler;
    try (left; reflexivity);
    try (right; eexists; reflexivity).
  - destruct keyOrObj; right; eexists; reflexivity.
  - left. apply HistorySpec.code_edit_leaves_logs.
  - unfold handleUndo. destruct (history s);
      [left | right; eexists]; reflexivity.
  - unfold handleRedo. destruct (future s);
      [left | right; eexists]; reflexivity.
  - unfold handleToggleMeasurements, andThen.
    destruct (showTokens s); right; eexists; reflexivity.
  - unfold handleToggleTokens, andThen.
    destruct (showMeasurements s); right; eexists; reflexivity.
Qed.

Lemma logs_bounded_when_reachable (JSON_parse : string -> option value)
  (evs : list Event) :
  (List.length (logs (run JSON_parse evs initial)) <= 50)%nat.
Proof.
  unfold run. rewrite <- fold_left_rev_right.
  induction (rev evs) as [|ev evs' IH]; [simpl; lia|].
  cbn [fold_right].
  destruct (logs_dispatch JSON_parse
              (fold_right (fun y x => dispatch JSON_parse x y) initial evs')
              ev) as [E | [e E]]; rewrite E; [exact IH|].
  rewrite length_slice_last. lia.
Qed.

End LogSpec.

(** ** Window stacking *)

Module WindowsSpec.
Import Windows.

Local Open Scope Z_scope.

Lemma maxZ_spec (ws : Windows) :
  maxZ ws = Z.max (Z.max (z ws control) (z ws code)) (z ws console).
Proof. reflexivity. Qed.

Lemma z_le_maxZ (ws : Windows) (i : WindowId) : z ws i <= maxZ ws.
Proof. rewrite maxZ_spec. destruct i; unfold z; simpl; lia. Qed.

Lemma get_set_same (ws : Windows) (i : WindowId) (w : WindowState) :
  get (set ws i w) i = w.
Proof. destruct i; reflexivity. Qed.

Lemma get_set_other (ws : Windows) (i j : WindowId) (w : WindowState) :
  j <> i -> get (set ws i w) j = get ws j.
Proof. destruct i, j; intros H; try reflexivity; congruence. Qed.

(** What the two updaters do to the window they are called for. *)
Lemma toggle_z (ws : Windows) (i : WindowId) :
  z (toggleWindow_updater i ws) i
  = if isOpen (get ws i) then z ws i else maxZ ws + 1.
Proof.
  unfold toggleWindow_updater, z.
  destruct (isOpen (get ws i)); cbn [negb]; rewrite !get_set_same;
    reflexivity.
Qed.

Lemma toggle_isOpen (ws : Windows) (i : WindowId) :
  isOpen (get (toggleWindow_updater i ws) i) = negb (isOpen (get ws i)).
Proof.
  unfold toggleWindow_updater.
  destruct (isOpen (get ws i)); cbn [negb]; rewrite !get_set_same;
    reflexivity.
Qed.

Lemma toggle_other (ws : Windows) (i j : WindowId) :
  j <> i -> get (toggleWindow_updater i ws) j = get ws j.
Proof.
  intros H. unfold toggleWindow_updater.
  destruct (isOpen (get ws i)); cbn [negb];
    rewrite !get_set_other by exact H; reflexivity.
Qed.

Lemma front_z (ws : Windows) (i : WindowId) :
  z (bringToFront_updater i ws) i
  = if z ws i =? maxZ ws then z ws i else maxZ ws + 1.
Proof.
  unfold bringToFront_updater, z.
  destruct (zIndex (get ws i) =? maxZ ws); [reflexivity|].
  rewrite get_set_same. reflexivity.
Qed.

Lemma front_other (ws : Windows) (i j : WindowId) :
  j <> i -> get (bringToFront_updater i ws) j = get ws j.
Proof.
  intros H. unfold bringToFront_updater.
  destruct (zIndex (get ws i) =? maxZ ws); [reflexivity|].
  apply get_set_other. exact H.
Qed.

Lemma toggle_z_other (ws : Windows) (i j : WindowId) :
  j <> i -> z (toggleWindow_updater i ws) j = z ws j.
Proof. intros H. unfold z. rewrite toggle_other by exact H. reflexivity. Qed.

Lemma front_z_other (ws : Windows) (i j : WindowId) :
  j <> i -> z (bringToFront_updater i ws) j = z ws j.
Proof. intros H. unfold z. rewrite front_other by exact H. reflexivity. Qed.

(** Express the z-orders after an update by those before it, split on the
    test the updater makes, and leave the comparisons to [lia]. *)
Ltac z_after_update ws :=
  pose proof (z_le_maxZ ws control);
  pose proof (z_le_maxZ ws code);
  pose proof (z_le_maxZ ws console);
  rewrite ?(maxZ_spec (toggleWindow_updater _ ws));
  rewrite ?(maxZ_spec (bringToFront_updater _ ws));
  repeat match goal with
    | |- context [z (toggleWindow_updater ?i ws) ?j] =>
        first [ rewrite (toggle_z ws i)
              | rewrite (toggle_z_other ws i j) by discriminate ]
    | |- context [z (bringToFront_updater ?i ws) ?j] =>
        first [ rewrite (front_z ws i)
              | rewrite (front_z_other ws i j) by discriminate ]
    end;
  repeat match goal with
    | |- context [if isOpen ?w then _ else _] => destruct (isOpen w)
    | |- context [if (?a =? ?b)%Z then _ else _] =>
        destruct (Z.eqb_spec a b)
    end;
  lia.

Lemma toggle_distinct (ws : Windows) (i : WindowId) :
  distinct ws -> distinct (toggleWindow_updater i ws).
Proof. unfold distinct. intros D. destruct i; z_after_update ws. Qed.

Lemma front_distinct (ws : Windows) (i : WindowId) :
  distinct ws -> distinct (bringToFront_updater i ws).
Proof. unfold distinct. intros D. destruct i; z_after_update ws. Qed.

(** Neither updater raises the largest z-order by more than one. *)
Lemma toggle_maxZ (ws : Windows) (i : WindowId) :
  maxZ (toggleWindow_updater i ws) <= maxZ ws + 1.
Proof. destruct i; z_after_update ws. Qed.

Lemma front_maxZ (ws : Windows) (i : WindowId) :
  maxZ (bringToFront_updater i ws) <= maxZ ws + 1.
Proof. destruct i; z_after_update ws. Qed.

(** With distinct z-orders, one window is in front. *)
Lemma distinct_front (ws : Windows) :
  distinct ws -> exists i : WindowId, front ws i.
Proof.
  unfold distinct, front. intros D. rewrite maxZ_spec.
  destruct (Z.max_spec (z ws control) (z ws code)) as [[? E1] | [? E1]];
    destruct (Z.max_spec (Z.max (z ws control) (z ws code)) (z ws console))
      as [[? E2] | [? E2]].
  - exists console. split; [lia|]. intros [] Hj; try congruence; lia.
  - exists code. split; [lia|]. intros [] Hj; try congruence; lia.
  - exists console. split; [lia|]. intros [] Hj; try congruence; lia.
  - exists control. split; [lia|]. intros [] Hj; try congruence; lia.
Qed.

Lemma front_unique (ws : Windows) (i j : WindowId) :
  front ws i -> front ws j -> i = j.
Proof.
  intros [_ Hi] [_ Hj].
  destruct i, j; try reflexivity;
    match goal with
    | |- ?a = ?b =>
        assert (a <> b) as Hab by discriminate;
        pose proof (Hj a Hab); pose proof (Hi b (not_eq_sym Hab)); lia
    end.
Qed.

Section Reachable.

Variable JSON_parse : string -> option JS.value.

Lemma windows_dispatch (s : App.State) (ev : App.Event) :
  App.windows (App.dispatch JSON_parse s ev) = App.windows s
  \/ exists i : WindowId,
       App.windows (App.dispatch JSON_parse s ev)
       = toggleWindow_updater i (App.windows s)
       \/ App.windows (App.dispatch JSON_parse s ev)
          = bringToFront_updater i (App.windows s).
Proof.
  destruct ev; unfold App.dispatch, App.handler;
    try (left; reflexivity).
  - destruct keyOrObj; left; reflexivity.
  - left. unfold App.handleCodeChange, App.andThen.
    destruct (JSON_parse newVal); reflexivity.
  - left. unfold App.handleUndo. destruct (App.history s); reflexivity.
  - left. unfold App.handleRedo. destruct (App.future s); reflexivity.
  - left. unfold App.handleToggleMeasurements, App.andThen.
    destruct (App.showTokens s); reflexivity.
  - left. unfold App.handleToggleTokens, App.andThen.
    destruct (App.showMeasurements s); reflexivity.
  - right. exists i. left. reflexivity.
  - right. exists i. right. reflexivity.
Qed.

Lemma run_snoc (evs : list App.Event) (ev : App.Event) (s : App.State) :
  App.run JSON_parse (evs ++ [ev]) s
  = App.dispatch JSON_parse (App.run JSON_parse evs s) ev.
Proof. unfold App.run. rewrite fold_left_app. reflexivity. Qed.

Lemma distinct_when_reachable (evs : list App.Event) :
  distinct (App.windows (App.run JSON_parse evs App.initial)).
Proof.
  induction evs as [|ev evs IH] using rev_ind.
  - unfold distinct, z. simpl. lia.
  - rewrite run_snoc.
    destruct (windows_dispatch (App.run JSON_parse evs App.initial) ev)
      as [E | [i [E | E]]]; rewrite E.
    + exact IH.
    + apply toggle_distinct, IH.
    + apply front_distinct, IH.
Qed.

(** Each event raises the largest z-order by one at most, so after [n]
    events it is at most [3 + n]: the integers stand for the doubles of the
    source exactly. *)
Lemma maxZ_when_reachable (evs : list App.Event) :
  maxZ (App.windows (App.run JSON_parse evs App.initial))
  <= 3 + Z.of_nat (List.length evs).
Proof.
  induction evs as [|ev evs IH] using rev_ind.
  - vm_compute. discriminate.
  - rewrite run_snoc, length_app. cbn [List.length].
    set (s := App.run JSON_parse evs App.initial) in *.
    destruct (windows_dispatch s ev) as [E | [i [E | E]]]; rewrite E.
    + lia.
    + pose proof (toggle_maxZ (App.windows s) i). lia.
    + pose proof (front_maxZ (App.windows s) i). lia.
Qed.

End Reachable.

(** C3: in every state the interface can reach, the three z-orders are
    pairwise distinct and exactly one window holds the maximum, strictly
    above the other two; a toggle that opens a window gives it the maximum
    plus one (one that closes it keeps its z-order), and [bringToFront]
    gives the window the maximum plus one exactly when it does not hold the
    maximum already; the other two windows are left as they are. *)
Theorem C3_z_orders_stay_distinct :
  forall (JSON_parse : string -> option JS.value) (evs : list App.Event),
    let ws := App.windows (App.run JSON_parse evs App.initial) in
    distinct ws
    /\ (exists i : WindowId,
          front ws i /\ forall j : WindowId, front ws j -> j = i)
    /\ (forall i : WindowId,
          isOpen (get (toggleWindow_updater i ws) i) = negb (isOpen (get ws i))
          /\ z (toggleWindow_updater i ws) i
             = (if isOpen (get ws i) then z ws i else maxZ ws + 1)
          /\ z (bringToFront_updater i ws) i
             = (if z ws i =? maxZ ws then z ws i else maxZ ws + 1)
          /\ (forall j : WindowId,
                j <> i ->
                get (toggleWindow_updater i ws) j = get ws j
                /\ get (bringToFront_updater i ws) j = get ws j)).
Proof.
  intros JSON_parse evs ws.
  pose proof (distinct_when_reachable JSON_parse evs) as D. fold ws in D.
  split; [exact D|]. split.
  - destruct (distinct_front ws D) as [i Hi]. exists i.
    split; [exact Hi|]. intros j Hj. apply (front_unique ws j i Hj Hi).
  - intros i. split; [apply toggle_isOpen|].
    split; [apply toggle_z|]. split; [apply front_z|].
    intros j Hj. split; [apply toggle_other | apply front_other]; exact Hj.
Qed.

Lemma C3_witness :
  let ws :=
    App.windows
      (App.run App.parse_literal
         [App.ToggleWindow code; App.BringToFront control;
          App.ToggleWindow console; App.ToggleWindow code]
         App.initial) in
  distinct ws
  /\ get (toggleWindow_updater code ws) control = get ws control
  /\ z (toggleWindow_updater code ws) code = 7.
Proof.
  intros ws.
  destruct (C3_z_orders_stay_distinct App.parse_literal
              [App.ToggleWindow code; App.BringToFront control;
               App.ToggleWindow console; App.ToggleWindow code])
    as (D & _ & H).
  split; [exact D|].
  destruct (H code) as (_ & Hz & _ & Ho).
  split; [apply (Ho control); discriminate | exact Hz].
Defined.

End WindowsSpec.

(** ** Overlays *)

Module OverlaySpec.
Import App.

Lemma exclusive_dispatch (JSON_parse : string -> option JS.value)
  (s : State) (ev : Event) :
  showMeasurements s && showTokens s = false ->
  showMeasurements (dispatch JSON_parse s ev)
  && showTokens (dispatch JSON_parse s ev) = false.
Proof.
  intros H. destruct ev; unfold dispatch, handler; try exact H.
  - destruct keyOrObj; exact H.
  - unfold handleCodeChange, andThen.
    destruct (JSON_parse newVal); exact H.
  - unfold handleUndo. destruct (history s); exact H.
  - unfold handleRedo. destruct (future s); exact H.
  - unfold handleToggleMeasurements, andThen.
    destruct (showTokens s) eqn:T; cbn; [|rewrite T]; apply andb_false_r.
  - unfold handleToggleTokens, andThen.
    destruct (showMeasurements s) eqn:M; cbn; [|rewrite M]; reflexivity.
Qed.

(** C8: in every reachable state the two overlay flags are not both on;
    toggling the measurement overlay flips it and leaves the token overlay
    off (turning it off when it was on), and the other way round. *)
Theorem C8_overlays_exclude_each_other :
  forall (JSON_parse : string -> option JS.value) (evs : list Event)
         (st : Stamp),
    let s := run JSON_parse evs initial in
    showMeasurements s && showTokens s = false
    /\ (let s' := dispatch JSON_parse s (ToggleMeasurements st) in
        showMeasurements s' = negb (showMeasurements s)
        /\ showTokens s' = false)
    /\ (let s' := dispatch JSON_parse s (ToggleTokens st) in
        showTokens s' = negb (showTokens s)
        /\ showMeasurements s' = false).
Proof.
  intros JSON_parse evs st s. split; [|split].
  - unfold s, run. rewrite <- fold_left_rev_right.
    induction (rev evs) as [|ev evs' IH]; [reflexivity|].
    cbn [fold_right]. apply exclusive_dispatch, IH.
  - unfold dispatch, handler, handleToggleMeasurements, andThen.
    destruct (showTokens s) eqn:T; cbn; rewrite ?T; split; reflexivity.
  - unfold dispatch, handler, handleToggleTokens, andThen.
    destruct (showMeasurements s) eqn:M; cbn; rewrite ?M; split; reflexivity.
Qed.

End OverlaySpec.

(** * Further properties of the orchestrator *)

Module HistoryExtra.
Import JS App Views.

Local Open Scope list_scope.

Lemma timeline_view (s : State) :
  timeline s
  = (let '(current, past, future) := view s in past ++ current :: future).
Proof. reflexivity. Qed.

(** X1: undo and redo move the current position along the timeline and
    change nothing else in it: the past, the current snapshot and the
    future, read in order, are the same list before and after, in every
    state (on an empty stack the operation does nothing). *)
Theorem X1_undo_redo_keep_the_timeline :
  forall (st : Stamp) (s : State),
    timeline (undo st s) = timeline s /\ timeline (redo st s) = timeline s.
Proof.
  intros st s. split.
  - rewrite !timeline_view, HistorySpec.view_undo. unfold view, undo_view.
    destruct (history s) as [|h hs] eqn:E; [reflexivity|]. rewrite <- E.
    pose proof (HistorySpec.snoc_slice_init (history s)) as L.
    rewrite <- L at 4 by (rewrite E; discriminate).
    rewrite <- app_assoc. reflexivity.
  - rewrite !timeline_view, HistorySpec.view_redo. unfold view, redo_view.
    destruct (future s) as [|f fs]; [reflexivity|].
    rewrite <- app_assoc. reflexivity.
Qed.

(** X2: in any state, an undo right after a redo that had something to redo
    restores the current snapshot and both stacks, and so does a redo right
    after an undo that had something to undo. *)
Theorem X2_undo_and_redo_are_inverse :
  forall (st st' : Stamp) (s : State),
    (future s <> [] -> view (undo st' (redo st s)) = view s)
    /\ (history s <> [] -> view (redo st' (undo st s)) = view s).
Proof.
  intros st st' s. split; intros H.
  - rewrite HistorySpec.view_undo, HistorySpec.view_redo.
    unfold view, redo_view. destruct (future s) as [|f fs]; [congruence|].
    unfold undo_view.
    destruct (history s ++ [btnProps s]) as [|h hs] eqn:E;
      [destruct (history s); discriminate|].
    rewrite <- E, HistorySpec.slice_init_snoc, HistorySpec.at_index_snoc.
    reflexivity.
  - rewrite HistorySpec.view_redo, HistorySpec.view_undo.
    apply HistorySpec.redo_undo_view. exact H.
Qed.

Lemma X2_witness :
  let st := mkStamp "k3x9q1z7a" "10:00:00" in
  let s := undo st (apply (JNum 2) true (apply (JNum 1) true initial)) in
  view (undo st (redo st s)) = view s /\ view (redo st (undo st s)) = view s.
Proof.
  intros st s.
  split; apply (X2_undo_and_redo_are_inverse st st s); discriminate.
Defined.

(** X3: the past is never cut short.  After any sequence of recording
    applies, from any state, the past followed by the current snapshot is
    the earlier past, the earlier current snapshot and the applied snapshots
    in order; from the initial state the past holds as many snapshots as
    there were applies. *)
Theorem X3_applies_extend_the_past :
  forall (snapshots : list value) (s : State),
    history (applies snapshots s) ++ [btnProps (applies snapshots s)]
    = history s ++ btnProps s :: snapshots
    /\ List.length (history (applies snapshots initial))
       = List.length snapshots.
Proof.
  intros snapshots s.
  assert (H : forall s0,
             history (applies snapshots s0) ++ [btnProps (applies snapshots s0)]
             = history s0 ++ btnProps s0 :: snapshots).
  { induction snapshots as [|v vs IH]; intros s0; [reflexivity|].
    cbn [applies fold_left]. fold (applies vs (apply v true s0)).
    rewrite IH. cbn. rewrite <- app_assoc. reflexivity. }
  split; [apply H|].
  pose proof (f_equal (@List.length value) (H initial)) as L.
  rewrite !length_app in L. cbn in L. lia.
Qed.

(** X4: the undo button is enabled exactly when undo changes the state, and
    the redo button exactly when redo does. *)
Theorem X4_buttons_enabled_iff_effective :
  forall (st : Stamp) (s : State),
    (canUndo s = false <-> undo st s = s)
    /\ (canRedo s = false <-> redo st s = s).
Proof.
  intros st s. unfold canUndo, canRedo. split; split.
  - intros H. unfold undo, fire, handleUndo.
    destruct (history s); [reflexivity | discriminate].
  - intros H. destruct (history s) as [|h hs] eqn:E; [reflexivity|].
    exfalso. pose proof (f_equal future H) as F.
    unfold undo, fire, handleUndo in F. rewrite E in F. cbn in F.
    apply (f_equal (@List.length value)) in F. cbn in F. lia.
  - intros H. unfold redo, fire, handleRedo.
    destruct (future s); [reflexivity | discriminate].
  - intros H. destruct (future s) as [|f fs] eqn:E; [reflexivity|].
    exfalso. pose proof (f_equal history H) as F.
    unfold redo, fire, handleRedo in F. rewrite E in F. cbn in F.
    apply (f_equal (@List.length value)) in F. rewrite length_app in F.
    cbn in F. lia.
Qed.

(** X21: a change made in the control panel can be undone at once.  After
    the label input, a selector with a value it offers, or the state
    selector has called [onPropChange], an undo restores the snapshot and
    the past that preceded the change and leaves the changed snapshot as the
    only entry of the future, whatever the future held before. *)
Theorem X21_panel_change_then_undo_restores :
  forall (JSON_parse : string -> option value) (st st' : Stamp)
         (c : PanelEvents.PanelChange) (s : State),
    PanelEvents.offered c = true ->
    let s1 := dispatch JSON_parse s (PanelEvents.event_of st c) in
    let s2 := dispatch JSON_parse s1 (Undo st') in
    btnProps s2 = btnProps s
    /\ history s2 = history s
    /\ future s2 = [btnProps s1]
    /\ exists ps : list (string * value), btnProps s1 = JObj ps.
Proof.
  intros JSON_parse st st' c s _ s1 s2.
  assert (E : exists w,
             view s1 = view (apply w true s)
             /\ exists ps, w = JObj ps).
  { unfold s1. destruct c as [text | name choice | val];
      cbn [PanelEvents.event_of]; eexists; split;
      try reflexivity; eexists; reflexivity. }
  destruct E as (w & E & ps & Hw).
  assert (R : view s2 = (btnProps s, history s, [w])).
  { change s2 with (undo st' s1).
    rewrite HistorySpec.view_undo, E, HistorySpec.view_apply.
    unfold undo_view.
    destruct (history s ++ [btnProps s]) as [|h hs] eqn:El;
      [destruct (history s); discriminate|].
    rewrite <- El, HistorySpec.slice_init_snoc, HistorySpec.at_index_snoc.
    reflexivity. }
  unfold view in R, E. injection E as E1 _ _. injection R as R1 R2 R3.
  repeat split; try assumption.
  - rewrite E1. exact R3.
  - exists ps. rewrite E1. exact Hw.
Qed.

Lemma X21_witness :
  let st := mkStamp "k3x9q1z7a" "10:00:00" in
  let s1 := dispatch parse_literal initial
              (PanelEvents.event_of st (PanelEvents.Pick "size" "xl")) in
  let s2 := dispatch parse_literal s1 (Undo st) in
  PanelEvents.offered (PanelEvents.Pick "size" "xl") = true
  /\ btnProps s2 = btnProps initial
  /\ history s2 = history initial
  /\ future s2 = [btnProps s1].
Proof.
  intros st. split; [reflexivity|].
  destruct (X21_panel_change_then_undo_restores parse_literal st st
              (PanelEvents.Pick "size" "xl") initial eq_refl)
    as (H1 & H2 & H3 & _).
  repeat split; assumption.
Defined.

Lemma X4_witness :
  let st := mkStamp "k3x9q1z7a" "10:00:00" in
  undo st initial = initial
  /\ canRedo (undo st (apply (JNum 1) true initial)) <> false.
Proof.
  intros st. split.
  - apply (X4_buttons_enabled_iff_effective st initial). reflexivity.
  - intros H.
    apply (X4_buttons_enabled_iff_effective st
             (undo st (apply (JNum 1) true initial))) in H.
    discriminate H.
Defined.

End HistoryExtra.

Module LogExtra.
Import JS App.

Local Open Scope list_scope.

(** X5: the log is append-only with eviction of the oldest entry.  In every
    reachable state it holds at most 50 entries, and one more event, of any
    kind, either leaves it as it is, or adds one entry at the end while
    there is room, or, when the log is full, drops the oldest entry and adds
    one at the end; the entries kept stay in order and unchanged. *)
Theorem X5_log_is_append_only_with_eviction :
  forall (JSON_parse : string -> option value) (evs : list Event)
         (ev : Event),
    let s := run JSON_parse evs initial in
    let s' := dispatch JSON_parse s ev in
    (List.length (logs s) <= 50)%nat
    /\ (logs s' = logs s
        \/ (exists e : LogEntry,
              (List.length (logs s) < 50)%nat /\ logs s' = logs s ++ [e])
        \/ (exists e : LogEntry,
              List.length (logs s) = 50%nat
              /\ logs s' = skipn 1 (logs s) ++ [e])).
Proof.
  intros JSON_parse evs ev s s'.
  pose proof (LogSpec.logs_bounded_when_reachable JSON_parse evs) as B.
  fold s in B. split; [exact B|].
  destruct (LogSpec.logs_dispatch JSON_parse s ev) as [E | [e E]];
    fold s' in E; [left; exact E | right].
  rewrite E. unfold slice_last. rewrite length_app, skipn_app. cbn [List.length].
  destruct (Nat.eq_dec (List.length (logs s)) 50) as [F | F].
  - right. exists e. split; [exact F|]. rewrite F. reflexivity.
  - left. exists e. split; [lia|].
    replace (List.length (logs s) + 1 - 50)%nat with 0%nat by lia.
    reflexivity.
Qed.

End LogExtra.

Module WindowsExtra.
Import Windows WindowsSpec Views.

Local Open Scope Z_scope.

Lemma toggle_z_grows (ws : Windows) (i j : WindowId) :
  z ws j <= z (toggleWindow_updater i ws) j.
Proof. destruct i, j; z_after_update ws. Qed.

Lemma front_z_grows (ws : Windows) (i j : WindowId) :
  z ws j <= z (bringToFront_updater i ws) j.
Proof. destruct i, j; z_after_update ws. Qed.

(** X6: z-orders only grow.  One event never lowers the z-order of a
    window and raises the largest z-order by one at most; so after [n]
    events from the start every z-order lies between 1 and [3 + n]. *)
Theorem X6_z_orders_only_grow :
  forall (JSON_parse : string -> option JS.value) (evs : list App.Event)
         (ev : App.Event) (i : WindowId),
    let ws := App.windows (App.run JSON_parse evs App.initial) in
    let ws' :=
      App.windows
        (App.dispatch JSON_parse (App.run JSON_parse evs App.initial) ev) in
    z ws i <= z ws' i
    /\ maxZ ws' <= maxZ ws + 1
    /\ 1 <= z ws i <= 3 + Z.of_nat (List.length evs).
Proof.
  intros JSON_parse evs ev i ws ws'.
  assert (Step : z ws i <= z ws' i /\ maxZ ws' <= maxZ ws + 1).
  { unfold ws'.
    destruct (windows_dispatch JSON_parse
                (App.run JSON_parse evs App.initial) ev)
      as [E | [j [E | E]]]; rewrite E; fold ws.
    - lia.
    - split; [apply toggle_z_grows | apply toggle_maxZ].
    - split; [apply front_z_grows | apply front_maxZ]. }
  destruct Step as [S1 S2]. split; [exact S1|]. split; [exact S2|].
  split.
  - unfold ws. clear. induction evs as [|e evs IH] using rev_ind.
    + destruct i; vm_compute; discriminate.
    + rewrite run_snoc.
      destruct (windows_dispatch JSON_parse
                  (App.run JSON_parse evs App.initial) e)
        as [E | [j [E | E]]]; rewrite E.
      * exact IH.
      * pose proof (toggle_z_grows
                      (App.windows (App.run JSON_parse evs App.initial)) j i).
        lia.
      * pose proof (front_z_grows
                      (App.windows (App.run JSON_parse evs App.initial)) j i).
        lia.
  - pose proof (maxZ_when_reachable JSON_parse evs) as B. fold ws in B.
    pose proof (z_le_maxZ ws i). lia.
Qed.

Lemma toggle_frame (ws : Windows) (i j : WindowId) :
  frame (get (toggleWindow_updater i ws) j) = frame (get ws j).
Proof.
  unfold toggleWindow_updater.
  destruct (isOpen (get ws i)); destruct i, j; reflexivity.
Qed.

Lemma front_frame (ws : Windows) (i j : WindowId) :
  frame (get (bringToFront_updater i ws) j) = frame (get ws j).
Proof.
  unfold bringToFront_updater.
  destruct (zIndex (get ws i) =? maxZ ws); [reflexivity|].
  destruct i, j; reflexivity.
Qed.

(** X7: no event moves, renames or re-keys a window: in every reachable
    state each window is stored under its own id and has the title and the
    position it was created with. *)
Theorem X7_windows_keep_id_title_and_position :
  forall (JSON_parse : string -> option JS.value) (evs : list App.Event)
         (i : WindowId),
    let w := get (App.windows (App.run JSON_parse evs App.initial)) i in
    id w = i
    /\ title w = title (get initial i)
    /\ x w = x (get initial i)
    /\ y w = y (get initial i).
Proof.
  intros JSON_parse evs i w.
  assert (F : frame w = frame (get initial i)).
  { unfold w. induction evs as [|e evs IH] using rev_ind; [reflexivity|].
    rewrite run_snoc.
    destruct (windows_dispatch JSON_parse
                (App.run JSON_parse evs App.initial) e)
      as [E | [j [E | E]]]; rewrite E.
    - exact IH.
    - rewrite toggle_frame. exact IH.
    - rewrite front_frame. exact IH. }
  unfold frame in F. injection F as F1 F2 F3 F4.
  repeat split; try assumption. rewrite F1. destruct i; reflexivity.
Qed.

(** X8: in every reachable state, [bringToFront] leaves the window it is
    called for in front, strictly above the other two, and calling it again
    changes nothing; a toggle that opens a window leaves it in front as
    well. *)
Theorem X8_raised_window_is_in_front :
  forall (JSON_parse : string -> option JS.value) (evs : list App.Event)
         (i : WindowId),
    let ws := App.windows (App.run JSON_parse evs App.initial) in
    front (bringToFront_updater i ws) i
    /\ bringToFront_updater i (bringToFront_updater i ws)
       = bringToFront_updater i ws
    /\ (isOpen (get ws i) = false -> front (toggleWindow_updater i ws) i).
Proof.
  intros JSON_parse evs i ws.
  pose proof (distinct_when_reachable JSON_parse evs) as D. fold ws in D.
  unfold distinct in D.
  assert (F : front (bringToFront_updater i ws) i).
  { unfold front. split.
    - destruct i; z_after_update ws.
    - intros j Hj. destruct i, j; try congruence; z_after_update ws. }
  split; [exact F|]. split.
  - destruct F as [F _]. unfold bringToFront_updater at 1. fold (z (bringToFront_updater i ws) i).
    rewrite F, Z.eqb_refl. reflexivity.
  - intros O. unfold front. split.
    + pose proof (toggle_z ws i) as T. rewrite O in T.
      destruct i; z_after_update ws.
    + intros j Hj. pose proof (toggle_z ws i) as T. rewrite O in T.
      destruct i, j; try congruence;
        pose proof (z_le_maxZ ws control); pose proof (z_le_maxZ ws code);
        pose proof (z_le_maxZ ws console);
        rewrite T;
        match goal with
        | |- z (toggleWindow_updater ?a ws) ?b < _ =>
            rewrite (toggle_z_other ws a b) by discriminate
        end; lia.
Qed.

Lemma X8_witness :
  let ws :=
    App.windows
      (App.run App.parse_literal [App.BringToFront control] App.initial) in
  isOpen (get ws code) = false /\ front (toggleWindow_updater code ws) code.
Proof.
  intros ws. split; [reflexivity|].
  destruct (X8_raised_window_is_in_front App.parse_literal
              [App.BringToFront control] code) as (_ & _ & H).
  apply H. reflexivity.
Defined.

Lemma toggles_of_snoc (i : WindowId) (evs : list App.Event)
  (ev : App.Event) :
  toggles_of i (evs ++ [ev])
  = (toggles_of i evs
     + match ev with
       | App.ToggleWindow j => if WindowId_eqb i j then 1 else 0
       | _ => 0
       end)%nat.
Proof.
  unfold toggles_of. rewrite filter_app, length_app. f_equal.
  destruct ev; try reflexivity. cbn [filter].
  destruct (WindowId_eqb i i0); reflexivity.
Qed.

(** X9: a window is open or closed by its own toggles alone.  In every
    reachable state window [i] is open exactly when the number of toggles of
    [i] so far is even, for the control window (open at the start), or odd,
    for the other two; no other event, [bringToFront] included, opens or
    closes a window. *)
Theorem X9_open_state_follows_own_toggles :
  forall (JSON_parse : string -> option JS.value) (evs : list App.Event)
         (i : WindowId),
    isOpen (get (App.windows (App.run JSON_parse evs App.initial)) i)
    = xorb (isOpen (get initial i)) (Nat.odd (toggles_of i evs)).
Proof.
  intros JSON_parse evs i.
  induction evs as [|ev evs IH] using rev_ind.
  - cbn. rewrite xorb_false_r. reflexivity.
  - rewrite run_snoc, toggles_of_snoc.
    set (s := App.run JSON_parse evs App.initial) in *.
    assert (Same : forall n, n = 0%nat ->
              isOpen (get (App.windows s) i)
              = xorb (isOpen (get initial i)) (Nat.odd (toggles_of i evs + n))).
    { intros n ->. rewrite Nat.add_0_r. exact IH. }
    destruct ev; unfold App.dispatch, App.handler;
      try (apply Same; reflexivity).
    + destruct keyOrObj; apply Same; reflexivity.
    + unfold App.handleCodeChange, App.andThen.
      destruct (JSON_parse newVal); apply Same; reflexivity.
    + unfold App.handleUndo.
      destruct (App.history s); apply Same; reflexivity.
    + unfold App.handleRedo.
      destruct (App.future s); apply Same; reflexivity.
    + unfold App.handleToggleMeasurements, App.andThen.
      destruct (App.showTokens s); apply Same; reflexivity.
    + unfold App.handleToggleTokens, App.andThen.
      destruct (App.showMeasurements s); apply Same; reflexivity.
    + cbn [App.toggleWindow App.setWindows App.next App.windows].
      destruct (WindowId_eqb i i0) eqn:Eq.
      * assert (i0 = i) by (destruct i, i0; try discriminate; reflexivity).
        subst i0. rewrite toggle_isOpen, IH.
        replace (toggles_of i evs + 1)%nat with (S (toggles_of i evs))
          by lia.
        rewrite Nat.odd_succ, <- Nat.negb_odd.
        destruct (isOpen (get initial i)), (Nat.odd (toggles_of i evs));
          reflexivity.
      * rewrite toggle_other
          by (intros ->; destruct i0; discriminate).
        apply Same. reflexivity.
    + cbn [App.bringToFront App.setWindows App.next App.windows].
      unfold bringToFront_updater.
      destruct (zIndex (get (App.windows s) i0) =? maxZ (App.windows s));
        [apply Same; reflexivity|].
      rewrite Nat.add_0_r, <- IH. destruct i, i0; reflexivity.
Qed.

End WindowsExtra.

Module OverlayExtra.
Import JS App Views.

Local Open Scope list_scope.

(** X10: the entry an overlay toggle logs tells the state the toggle
    produces: after a toggle of the measurement overlay the last log entry
    reads [Measurements toggled: On] when the overlay is now on and
    [Measurements toggled: Off] when it is now off, and likewise for the
    token overlay. *)
Theorem X10_overlay_log_tells_the_new_state :
  forall (JSON_parse : string -> option value) (st : Stamp) (s : State),
    (let s' := dispatch JSON_parse s (ToggleMeasurements st) in
     exists kept : list LogEntry,
       logs s'
       = kept
         ++ [mkLogEntry (random_id st) (time_string st)
               ("Measurements toggled: "
                ++ (if showMeasurements s' then "On" else "Off"))%string])
    /\ (let s' := dispatch JSON_parse s (ToggleTokens st) in
        exists kept : list LogEntry,
          logs s'
          = kept
            ++ [mkLogEntry (random_id st) (time_string st)
                  ("Tokens toggled: "
                   ++ (if showTokens s' then "On" else "Off"))%string]).
Proof.
  intros JSON_parse st s. split.
  - unfold dispatch, handler, handleToggleMeasurements, andThen.
    destruct (showTokens s); cbn;
      apply LogSpec.slice_last_snoc; lia.
  - unfold dispatch, handler, handleToggleTokens, andThen.
    destruct (showMeasurements s); cbn;
      apply LogSpec.slice_last_snoc; lia.
Qed.

Lemma stage_clicks_snoc (evs : list Event) (ev : Event) :
  stage_clicks (evs ++ [ev])
  = (stage_clicks evs
     + match ev with StageButtonClick _ => 1 | _ => 0 end)%nat.
Proof.
  unfold stage_clicks. rewrite filter_app, length_app. f_equal.
  destruct ev; reflexivity.
Qed.

(** X11: the confetti trigger counts the clicks on the stage button: in
    every reachable state it is the number of such clicks so far, and each
    click also logs [Button Clicked!]. *)
Theorem X11_confetti_counts_stage_clicks :
  forall (JSON_parse : string -> option value) (evs : list Event)
         (st : Stamp),
    let s := run JSON_parse evs initial in
    confettiTrigger s = Z.of_nat (stage_clicks evs)
    /\ exists kept : list LogEntry,
         logs (dispatch JSON_parse s (StageButtonClick st))
         = kept ++ [mkLogEntry (random_id st) (time_string st)
                      "Button Clicked!"].
Proof.
  intros JSON_parse evs st s. split.
  - unfold s. clear s. induction evs as [|ev evs IH] using rev_ind;
      [reflexivity|].
    rewrite WindowsSpec.run_snoc, stage_clicks_snoc, Nat2Z.inj_add, <- IH.
    set (s := run JSON_parse evs initial).
    destruct ev; unfold dispatch, handler; cbn [Z.of_nat];
      try (symmetry; apply Z.add_0_r).
    + destruct keyOrObj; symmetry; apply Z.add_0_r.
    + unfold handleCodeChange, andThen.
      destruct (JSON_parse newVal); symmetry; apply Z.add_0_r.
    + unfold handleUndo. destruct (history s); symmetry; apply Z.add_0_r.
    + unfold handleRedo. destruct (future s); symmetry; apply Z.add_0_r.
    + unfold handleToggleMeasurements, andThen.
      destruct (showTokens s); symmetry; apply Z.add_0_r.
    + unfold handleToggleTokens, andThen.
      destruct (showMeasurements s); symmetry; apply Z.add_0_r.
    + reflexivity.
  - apply LogSpec.slice_last_snoc. lia.
Qed.

End OverlayExtra.

(** * Property writes and the control panel *)

Module ObjectFacts.
Import JS.

Lemma assoc_replace_same (k : string) (v : value)
  (ps : list (string * value)) :
  assoc k ps <> None -> assoc k (replace k v ps) = Some v.
Proof.
  induction ps as [|[k' x] ps IH]; cbn [assoc replace]; [congruence|].
  destruct (String.eqb k k') eqn:E; cbn [assoc]; rewrite E;
    [reflexivity | exact IH].
Qed.

Lemma assoc_replace_other (k k' : string) (v : value)
  (ps : list (string * value)) :
  k' <> k -> assoc k' (replace k v ps) = assoc k' ps.
Proof.
  intros H. induction ps as [|[k0 x] ps IH]; cbn [assoc replace];
    [reflexivity|].
  destruct (String.eqb_spec k k0) as [-> | _]; cbn [assoc].
  - destruct (String.eqb_spec k' k0); [congruence | reflexivity].
  - destruct (String.eqb k' k0); [reflexivity | exact IH].
Qed.

Lemma assoc_insert_index_same (n : N) (k : string) (v : value)
  (ps : list (string * value)) :
  assoc k ps = None -> assoc k (insert_index n k v ps) = Some v.
Proof.
  induction ps as [|[k' x] ps IH]; cbn [assoc insert_index]; intros H.
  - rewrite String.eqb_refl. reflexivity.
  - destruct (String.eqb k k') eqn:E; [discriminate|].
    destruct (array_index k') as [m|]; [destruct (m <? n)%N|];
      cbn [assoc]; rewrite ?E, ?String.eqb_refl; auto.
Qed.

Lemma assoc_insert_index_other (n : N) (k k' : string) (v : value)
  (ps : list (string * value)) :
  k' <> k -> assoc k' (insert_index n k v ps) = assoc k' ps.
Proof.
  intros H. apply String.eqb_neq in H.
  induction ps as [|[k0 x] ps IH]; cbn [assoc insert_index].
  - rewrite H. reflexivity.
  - destruct (array_index k0) as [m|]; [destruct (m <? n)%N|];
      cbn [assoc]; rewrite ?H; try reflexivity.
    destruct (String.eqb k' k0); [reflexivity | exact IH].
Qed.

Lemma assoc_snoc (k k' : string) (v : value) (ps : list (string * value)) :
  assoc k' (ps ++ [(k, v)])
  = match assoc k' ps with
    | Some x => Some x
    | None => if String.eqb k' k then Some v else None
    end.
Proof.
  induction ps as [|[k0 x] ps IH]; cbn [assoc app]; [reflexivity|].
  destruct (String.eqb k' k0); [reflexivity | exact IH].
Qed.

(** A write is read back, and no other name is affected. *)
Lemma assoc_obj_set_same (k : string) (v : value)
  (ps : list (string * value)) :
  assoc k (obj_set k v ps) = Some v.
Proof.
  unfold obj_set. destruct (assoc k ps) eqn:E.
  - apply assoc_replace_same. congruence.
  - destruct (array_index k).
    + apply assoc_insert_index_same. exact E.
    + rewrite assoc_snoc, E, String.eqb_refl. reflexivity.
Qed.

Lemma assoc_obj_set_other (k k' : string) (v : value)
  (ps : list (string * value)) :
  k' <> k -> assoc k' (obj_set k v ps) = assoc k' ps.
Proof.
  intros H. unfold obj_set. destruct (assoc k ps).
  - apply assoc_replace_other. exact H.
  - destruct (array_index k).
    + apply assoc_insert_index_other. exact H.
    + rewrite assoc_snoc. apply String.eqb_neq in H. rewrite H.
      destruct (assoc k' ps); reflexivity.
Qed.

(** Spreading an object with distinct names over a target: its properties
    win, the others stay. *)
Lemma assoc_fold_obj_set (k : string) (src : list (string * value)) :
  NoDup (map fst src) ->
  forall target : list (string * value),
    assoc k
      (fold_left (fun acc kv => obj_set (fst kv) (snd kv) acc) src target)
    = match assoc k src with
      | Some x => Some x
      | None => assoc k target
      end.
Proof.
  induction src as [|[k0 x] src IH]; intros D target; [reflexivity|].
  cbn [map fst] in D. inversion D as [|? ? Hnot D']; subst.
  cbn [fold_left fst snd assoc]. rewrite (IH D').
  destruct (String.eqb_spec k k0) as [-> | Hne].
  - assert (N : assoc k0 src = None).
    { clear - Hnot. induction src as [|[k1 y] src IH]; [reflexivity|].
      cbn [assoc]. cbn [map fst In] in Hnot.
      destruct (String.eqb_spec k0 k1) as [-> | _]; [tauto|].
      apply IH. tauto. }
    rewrite N. apply assoc_obj_set_same.
  - destruct (assoc k src); [reflexivity|].
    apply assoc_obj_set_other. exact Hne.
Qed.

Lemma get_JObj (ps : list (string * value)) (k : string) :
  get (JObj ps) k = match assoc k ps with Some x => x | None => JUndefined end.
Proof. reflexivity. Qed.

End ObjectFacts.

Module ControlPanelSpec.
Import JS App Views ControlPanel ObjectFacts.

Local Open Scope list_scope.

(** X12: setting one property from the control panel is read back and
    touches no other property.  When the names of the enumerable own
    properties of the current snapshot are distinct, after
    [handlePropChange(name, v)] the snapshot is an object that has [v] as
    its own property [name] and, under every other name, the enumerable own
    property the earlier snapshot had, or none where it had none; the
    earlier snapshot is the last entry of the past. *)
Theorem X12_prop_change_sets_one_property :
  forall (JSON_parse : string -> option value) (st : Stamp) (name : string)
         (v : value) (s : State),
    NoDup (map fst (own_props (btnProps s))) ->
    let s' := dispatch JSON_parse s (PropChange st (inl name) v) in
    (exists ps : list (string * value), btnProps s' = JObj ps)
    /\ own_property (btnProps s') name = Some v
    /\ (forall k : string,
          k <> name ->
          own_property (btnProps s') k = own_property (btnProps s) k)
    /\ history s' = history s ++ [btnProps s].
Proof.
  intros JSON_parse st name v s D s'.
  assert (E : btnProps s'
              = JObj (obj_set name v (spread [] (btnProps s))))
    by reflexivity.
  unfold own_property. rewrite E. cbn [own_props].
  split; [eexists; reflexivity|]. split; [|split; [|reflexivity]].
  - apply assoc_obj_set_same.
  - intros k Hk. rewrite assoc_obj_set_other by exact Hk.
    unfold spread. rewrite (assoc_fold_obj_set k _ D).
    destruct (assoc k (own_props (btnProps s))); reflexivity.
Qed.

Lemma X12_witness :
  let st := mkStamp "k3x9q1z7a" "10:00:00" in
  let s' := dispatch parse_literal initial
              (PropChange st (inl "size") (JStr "xl")) in
  own_property (btnProps s') "size" = Some (JStr "xl")
  /\ own_property (btnProps s') "label" = Some (JStr "SusButton")
  /\ own_property (btnProps s') "length" = None.
Proof.
  intros st s'.
  assert (D : NoDup (map fst (own_props (btnProps initial)))).
  { cbn. repeat constructor; cbn; intuition discriminate. }
  destruct (X12_prop_change_sets_one_property parse_literal st "size"
              (JStr "xl") initial D) as (_ & H1 & H2 & _).
  split; [exact H1|]. unfold s'.
  split; (rewrite H2; [reflexivity | discriminate]).
Defined.

(** X20: an object of updates writes the properties it lists and no
    other.  When the names of the updates are distinct, and those of the
    enumerable own properties of the current snapshot too, after
    [handlePropChange(updates)] the snapshot is an object whose own property
    under a listed name is the one [updates] gives and under any other name
    the enumerable own property the earlier snapshot had, or none; the log
    entry lists the names. *)
Theorem X20_state_update_sets_listed_properties :
  forall (JSON_parse : string -> option value) (st : Stamp)
         (updates : list (string * value)) (s : State),
    NoDup (map fst updates) ->
    NoDup (map fst (own_props (btnProps s))) ->
    let s' := dispatch JSON_parse s (PropChange st (inr updates) JUndefined) in
    (exists ps : list (string * value), btnProps s' = JObj ps)
    /\ (forall k : string,
          own_property (btnProps s') k
          = match assoc k updates with
            | Some v => Some v
            | None => own_property (btnProps s) k
            end)
    /\ exists kept : list LogEntry,
         logs s'
         = kept
           ++ [mkLogEntry (random_id st) (time_string st)
                 ("State updated: "
                  ++ String.concat ", " (map fst updates))%string].
Proof.
  intros JSON_parse st updates s Du Ds s'.
  assert (E : btnProps s'
              = JObj (spread (spread [] (btnProps s)) (JObj updates)))
    by reflexivity.
  split; [eexists; exact E|]. split.
  - intros k. unfold own_property. rewrite E. cbn [own_props].
    unfold spread at 1. cbn [own_props].
    rewrite (assoc_fold_obj_set k updates Du).
    destruct (assoc k updates); [reflexivity|].
    unfold spread. rewrite (assoc_fold_obj_set k _ Ds).
    destruct (assoc k (own_props (btnProps s))); reflexivity.
  - apply LogSpec.slice_last_snoc. lia.
Qed.

Lemma X20_witness :
  let st := mkStamp "k3x9q1z7a" "10:00:00" in
  let s' := dispatch parse_literal initial
              (PropChange st
                 (inr [("size", JStr "s"); ("disabled", JBool true)])
                 JUndefined) in
  own_property (btnProps s') "disabled" = Some (JBool true)
  /\ own_property (btnProps s') "icon" = Some (JStr "ph-check").
Proof.
  intros st s'.
  assert (Du : NoDup (map fst [("size", JStr "s"); ("disabled", JBool true)])).
  { cbn. repeat constructor; cbn; intuition discriminate. }
  assert (Ds : NoDup (map fst (own_props (btnProps initial)))).
  { cbn. repeat constructor; cbn; intuition discriminate. }
  destruct (X20_state_update_sets_listed_properties parse_literal st
              [("size", JStr "s"); ("disabled", JBool true)] initial Du Ds)
    as (_ & H & _).
  split; unfold s'; rewrite H; reflexivity.
Defined.

Lemma flags_after_updates (base : list (string * value))
  (d h f a : bool) (k : string) :
  assoc k
    (spread base
       (JObj [("disabled", JBool d); ("forcedHover", JBool h);
              ("forcedFocus", JBool f); ("forcedActive", JBool a)]))
  = if String.eqb k "disabled" then Some (JBool d)
    else if String.eqb k "forcedHover" then Some (JBool h)
    else if String.eqb k "forcedFocus" then Some (JBool f)
    else if String.eqb k "forcedActive" then Some (JBool a)
    else assoc k base.
Proof.
  unfold spread. cbn [own_props]. rewrite assoc_fold_obj_set.
  - cbn [assoc].
    repeat match goal with
      | |- context [String.eqb k ?x] => destruct (String.eqb k x)
      end; reflexivity.
  - cbn. repeat constructor; cbn; intuition discriminate.
Qed.

(** X13: the state selector of the control panel round-trips through the
    snapshot.  Whatever the snapshot was, after [handleInteractionChange]
    with one of [hover], [focus], [active], [disabled] the panel computes
    that same value as the current interaction, and after any other value
    ([default] included) it computes [default]: the four flags are written
    together and at most one is on. *)
Theorem X13_interaction_select_round_trips :
  forall (st : Stamp) (val : string) (s : State),
    let s' := fire (handleInteractionChange st val) s in
    currentInteraction (btnProps s')
    = (if existsb (String.eqb val) ["hover"; "focus"; "active"; "disabled"]
       then val else "default")
    /\ (List.length
          (filter (flag (btnProps s'))
             ["disabled"; "forcedHover"; "forcedFocus"; "forcedActive"])
        <= 1)%nat.
Proof.
  intros st val s s'.
  assert (E : exists d h f a : bool,
             btnProps s'
             = JObj (spread (spread [] (btnProps s))
                       (JObj [("disabled", JBool d); ("forcedHover", JBool h);
                              ("forcedFocus", JBool f);
                              ("forcedActive", JBool a)]))
             /\ (d, h, f, a)
                = (String.eqb val "disabled", String.eqb val "hover",
                   String.eqb val "focus", String.eqb val "active")).
  { unfold s', fire, handleInteractionChange, handlePropChange,
      interaction_updates.
    destruct (String.eqb_spec val "default") as [-> | _];
      [do 4 eexists; split; reflexivity|].
    destruct (String.eqb_spec val "disabled") as [-> | _];
      [do 4 eexists; split; reflexivity|].
    destruct (String.eqb_spec val "hover") as [-> | _];
      [do 4 eexists; split; reflexivity|].
    destruct (String.eqb_spec val "focus") as [-> | _];
      [do 4 eexists; split; reflexivity|].
    destruct (String.eqb_spec val "active") as [-> | _];
      do 4 eexists; split; reflexivity. }
  destruct E as (d & h & f & a & E & V). rewrite E.
  unfold currentInteraction, flag. cbn [filter].
  unfold flag. rewrite !get_JObj, !flags_after_updates.
  cbn [String.eqb Ascii.eqb Bool.eqb truthy].
  injection V as -> -> -> ->. cbn [existsb].
  destruct (String.eqb_spec val "disabled") as [-> | _];
    [split; [reflexivity | cbn; lia]|].
  destruct (String.eqb_spec val "active") as [-> | _];
    [split; [reflexivity | cbn; lia]|].
  destruct (String.eqb_spec val "focus") as [-> | _];
    [split; [reflexivity | cbn; lia]|].
  destruct (String.eqb_spec val "hover") as [-> | _];
    split; try reflexivity; cbn; lia.
Qed.

End ControlPanelSpec.

(** * Token trees *)

Module TokenTreesSpec.
Import JS Tokens TokenTrees TokensSpec.

Lemma value_nested_ind (P : value -> Prop) :
  P JUndefined -> P JNull ->
  (forall b : bool, P (JBool b)) ->
  (forall n : Z, P (JNum n)) ->
  (forall s : string, P (JStr s)) ->
  (forall items : list value, Forall P items -> P (JArr items)) ->
  (forall ps : list (string * value),
      Forall (fun kv => P (snd kv)) ps -> P (JObj ps)) ->
  forall v : value, P v.
Proof.
  intros HU HN HB HZ HS HA HO. fix IH 1.
  intros [| | b | n | s | items | ps];
    [exact HU | exact HN | apply HB | apply HZ | apply HS | | ].
  - apply HA. induction items as [|x items IHitems]; constructor;
      [apply IH | exact IHitems].
  - apply HO. induction ps as [|[k x] ps IHps]; constructor;
      [apply IH | exact IHps].
Qed.

(** X14: [isResponsiveObject] holds of the plain objects that have one of
    the names [mobile], [tablet], [desktop] among their own properties, and
    of nothing else: not of an array, of [null] or of a primitive. *)
Theorem X14_responsive_objects_are_mappings_with_a_reserved_key :
  forall v : value,
    isResponsiveObject v = true
    <-> exists ps : list (string * value),
          v = JObj ps
          /\ exists k : string, In k reserved /\ In k (map fst ps).
Proof.
  intros v. rewrite isResponsiveObject_mapping. split.
  - destruct v as [| | b | n | s | items | ps]; try discriminate.
    cbn [is_responsive_mapping]. intros H. exists ps. split; [reflexivity|].
    apply existsb_exists in H. destruct H as (k & Hk & H). exists k.
    split; [exact Hk|]. apply existsb_exists in H.
    destruct H as (k' & Hk' & E). apply String.eqb_eq in E. subst k'.
    exact Hk'.
  - intros (ps & -> & k & Hk & Hin). cbn [is_responsive_mapping].
    apply existsb_exists. exists k. split; [exact Hk|].
    apply existsb_exists. exists k. split; [exact Hin|].
    apply String.eqb_refl.
Qed.

Lemma X14_witness :
  isResponsiveObject (JObj [("tablet", JStr "16px")]) = true
  /\ isResponsiveObject (JArr [JStr "mobile"]) <> true.
Proof.
  split.
  - apply (X14_responsive_objects_are_mappings_with_a_reserved_key
             (JObj [("tablet", JStr "16px")])).
    exists [("tablet", JStr "16px")]. split; [reflexivity|].
    exists "tablet". split; cbn; auto.
  - intros H.
    apply (X14_responsive_objects_are_mappings_with_a_reserved_key
             (JArr [JStr "mobile"])) in H.
    destruct H as (ps & E & _). discriminate E.
Defined.

Lemma leaf_not_responsive (v : value) :
  is_leaf v = true -> isResponsiveObject v = false /\ resolved v = true.
Proof.
  rewrite isResponsiveObject_mapping.
  destruct v; try discriminate; split; reflexivity.
Qed.

Lemma resolve_property_leaf (b : Breakpoint) (v : value) :
  is_leaf v = true -> resolve_property b v = v.
Proof. destruct v; try discriminate; reflexivity. Qed.

Lemma resolved_identity (b : Breakpoint) :
  forall v : value,
    resolved v = true -> is_leaf v = false -> resolveTokens v b = v.
Proof.
  induction v as [| | c | n | s | items IH | ps IH] using value_nested_ind;
    try discriminate.
  intros R _. rewrite resolveTokens_object. f_equal. cbn [resolved] in R.
  induction ps as [|[k x] ps IHps]; [reflexivity|].
  cbn [map fst snd]. cbn [forallb snd] in R.
  apply andb_true_iff in R. destruct R as [Rx Rps].
  apply andb_true_iff in Rx. destruct Rx as [Nx Rx].
  inversion IH as [|? ? Hx Hps]; subst. cbn [snd] in Hx.
  rewrite (IHps Hps Rps). do 2 f_equal.
  unfold resolve_property. rewrite <- isResponsiveObject_mapping.
  apply negb_true_iff in Nx. rewrite Nx.
  destruct x; try reflexivity.
  - discriminate.
  - apply Hx; [exact Rx | reflexivity].
Qed.

(** X15: on a tree without responsive values and without arrays below the
    root, [resolveTokens] is the identity, for every breakpoint: the copy it
    returns equals its argument. *)
Theorem X15_resolve_is_identity_on_resolved_trees :
  forall (ps : list (string * value)) (b : Breakpoint),
    resolved (JObj ps) = true -> resolveTokens (JObj ps) b = JObj ps.
Proof.
  intros ps b R. apply resolved_identity; [exact R | reflexivity].
Qed.

Lemma X15_witness :
  let tree :=
    JObj [("radius", JObj [("Radius.S", JStr "6px");
                           ("Radius.M", JStr "8px")]);
          ("weight", JNum 400); ("none", JNull)] in
  resolved tree = true /\ resolveTokens tree tablet = tree.
Proof.
  intros tree. split; [reflexivity|].
  apply (X15_resolve_is_identity_on_resolved_trees
           [("radius", JObj [("Radius.S", JStr "6px");
                             ("Radius.M", JStr "8px")]);
            ("weight", JNum 400); ("none", JNull)] tablet).
  reflexivity.
Defined.

Lemma forallb_indexed {A : Type} (f : A -> bool) (l : list A) :
  forallb (fun kv => f (snd kv)) (indexed l) = forallb f l.
Proof.
  unfold indexed.
  assert (H : forall (ks : list string) (xs : list A),
             List.length ks = List.length xs ->
             forallb (fun kv => f (snd kv)) (combine ks xs) = forallb f xs).
  { induction ks as [|k ks IH]; intros [|x xs] E; simpl in *;
      try discriminate; [reflexivity|]. f_equal. apply IH. lia. }
  apply H. rewrite length_map, length_seq. reflexivity.
Qed.

Lemma indexed_not_responsive (l : list value) :
  isResponsiveObject (JObj (indexed l)) = false.
Proof.
  unfold isResponsiveObject, has_key. cbn [own_props truthy typeof_object].
  rewrite !assoc_indexed_name by reflexivity. reflexivity.
Qed.

Lemma responsive_by_keys (ps qs : list (string * value)) :
  map fst ps = map fst qs ->
  isResponsiveObject (JObj ps) = isResponsiveObject (JObj qs).
Proof.
  intros E. rewrite !isResponsiveObject_mapping.
  cbn [is_responsive_mapping]. rewrite E. reflexivity.
Qed.

Lemma assoc_In (k : string) (ps : list (string * value)) (x : value) :
  assoc k ps = Some x -> In (k, x) ps.
Proof.
  induction ps as [|[k' y] ps IH]; cbn [assoc]; [discriminate|].
  destruct (String.eqb_spec k k') as [-> | _].
  - intros [= ->]. left. reflexivity.
  - intros H. right. apply IH. exact H.
Qed.

Lemma pick_leaf (x : value) (b : Breakpoint) :
  forallb (fun br => is_leaf (snd br)) (own_props x) = true ->
  is_leaf (pick x b) = true.
Proof.
  intros H. destruct (pick_is_a_branch x b) as (k & _ & ->).
  unfold get. destruct (assoc k (own_props x)) as [y|] eqn:E;
    [|reflexivity].
  apply assoc_In in E. rewrite forallb_forall in H. apply (H (k, y) E).
Qed.

(** What a walked property becomes, under the hypothesis on its subtree. *)
Lemma entry_resolved (b : Breakpoint) (x : value) :
  (leaf_branches x = true -> resolved (resolveTokens x b) = true) ->
  (if isResponsiveObject x
   then forallb (fun br => is_leaf (snd br)) (own_props x)
   else leaf_branches x) = true ->
  negb (isResponsiveObject (resolve_property b x))
  && resolved (resolve_property b x) = true.
Proof.
  intros IH H. unfold resolve_property.
  rewrite <- isResponsiveObject_mapping, <- pick_fallback.
  destruct (isResponsiveObject x) eqn:R.
  - destruct (leaf_not_responsive _ (pick_leaf x b H)) as [-> ->].
    reflexivity.
  - destruct x as [| | c | n | s | items | ps];
      try (rewrite R; reflexivity).
    + rewrite (IH H), andb_true_r. rewrite resolveTokens_array.
      rewrite indexed_not_responsive. reflexivity.
    + rewrite (IH H), andb_true_r. rewrite resolveTokens_object.
      rewrite (responsive_by_keys _ ps), R; [reflexivity|].
      rewrite map_map. reflexivity.
Qed.

Lemma resolve_settles (b : Breakpoint) :
  forall v : value,
    leaf_branches v = true -> resolved (resolveTokens v b) = true.
Proof.
  induction v as [| | c | n | s | items IH | ps IH] using value_nested_ind;
    intros L; try reflexivity.
  - cbn [resolveTokens resolved].
    rewrite (forallb_indexed
               (fun x => negb (isResponsiveObject x) && resolved x)).
    induction (chars s) as [|c cs IHcs]; [reflexivity|].
    cbn [map forallb].
    destruct (leaf_not_responsive (JStr c) eq_refl) as [-> ->]. exact IHcs.
  - rewrite resolveTokens_array. cbn [resolved].
    rewrite (forallb_indexed
               (fun x => negb (isResponsiveObject x) && resolved x)).
    cbn [leaf_branches] in L.
    induction items as [|x items IHitems]; [reflexivity|].
    cbn [map forallb] in *. apply andb_true_iff in L. destruct L as [Lx L].
    inversion IH as [|? ? Hx Hitems]; subst.
    rewrite (entry_resolved b x Hx Lx). apply IHitems; assumption.
  - rewrite resolveTokens_object. cbn [resolved leaf_branches] in *.
    induction ps as [|[k x] ps IHps]; [reflexivity|].
    cbn [map forallb fst snd] in *. apply andb_true_iff in L.
    destruct L as [Lx L]. inversion IH as [|? ? Hx Hps]; subst.
    cbn [snd] in Hx. rewrite (entry_resolved b x Hx Lx).
    apply IHps; assumption.
Qed.

(** X16: when every responsive value of a tree holds leaves only, one pass
    of [resolveTokens] leaves no responsive value and no array below the
    root, and a second pass, for the same or any other breakpoint, changes
    nothing. *)
Theorem X16_one_pass_resolves_leaf_branch_trees :
  forall (v : value) (b b' : Breakpoint),
    leaf_branches v = true ->
    resolved (resolveTokens v b) = true
    /\ resolveTokens (resolveTokens v b) b' = resolveTokens v b.
Proof.
  intros v b b' L. pose proof (resolve_settles b v L) as R.
  split; [exact R|]. apply resolved_identity; [exact R|].
  destruct v; reflexivity.
Qed.

Lemma X16_witness :
  let tree :=
    JObj [("Body",
           JObj [("PageSubheading",
                  JObj [("fontSize",
                         JObj [("mobile", JStr "14px");
                               ("tablet", JStr "16px")]);
                        ("fontWeight", JNum 400);
                        ("tag", JStr "p")])]);
          ("radius", JObj [("Radius.M", JStr "8px")])] in
  leaf_branches tree = true
  /\ resolveTokens (resolveTokens tree desktop) mobile
     = resolveTokens tree desktop
  /\ get (get (get (resolveTokens tree desktop) "Body") "PageSubheading")
       "fontSize"
     = JStr "16px".
Proof.
  intros tree. split; [reflexivity|]. split; [|reflexivity].
  apply (X16_one_pass_resolves_leaf_branch_trees tree desktop mobile).
  reflexivity.
Defined.

End TokenTreesSpec.

(** * Style tables *)

Module StylesSpec.
Import Styles.

(** X17: the colours the code panel exports are the colours the button
    renders, for both themes and every type, known or not, with one
    exception: the panel's table has no [ghost] entry, so for a ghost button
    it exports the primary colours, which differ from the ghost ones. *)
Theorem X17_exported_colours_match_except_ghost :
  forall (isDark : bool) (type : string),
    (type <> "ghost" ->
     getResolvedColors isDark type = getThemeStyles isDark type)
    /\ getResolvedColors isDark "ghost" = getThemeStyles isDark "primary"
    /\ getResolvedColors isDark "ghost" <> getThemeStyles isDark "ghost".
Proof.
  intros isDark type. split; [|split].
  - intros H. apply String.eqb_neq in H.
    unfold getResolvedColors, getThemeStyles, lookup. cbn [own].
    rewrite H.
    repeat match goal with
      | |- context [String.eqb type ?k] =>
          destruct (String.eqb type k); try reflexivity
      end.
  - reflexivity.
  - destruct isDark; discriminate.
Qed.

Lemma X17_witness :
  getResolvedColors true "tertiary" = getThemeStyles true "tertiary"
  /\ getResolvedColors false "no such type" = inl (primary false).
Proof.
  split.
  - apply (X17_exported_colours_match_except_ghost true "tertiary").
    discriminate.
  - reflexivity.
Defined.

(** X18: for every size value that is not the name of a member of
    [Object.prototype], the font size the code panel exports is the font
    size of the size style the button uses, and on a value the tables do not
    list both fall back to the [m] size, 16px.  At the name of such a member
    ([constructor], [toString], ...) neither lookup reaches a table entry or
    the fallback: each returns the inherited member. *)
Theorem X18_exported_font_size_matches :
  forall size : string,
    (existsb (String.eqb size) Object_prototype_names = false ->
     exists style : SizeStyle,
       sizeStyle size = inl style
       /\ getFontSize size = inl (fontSize style)
       /\ (own size SIZES = None -> fontSize style = "16px"))
    /\ (existsb (String.eqb size) Object_prototype_names = true ->
        sizeStyle size = inr size /\ getFontSize size = inr size).
Proof.
  intros size. unfold getFontSize, sizeStyle, lookup, SIZES. cbn [own].
  split; intros H.
  - rewrite H.
    repeat match goal with
      | |- context [String.eqb size ?k] =>
          destruct (String.eqb size k);
          [eexists; repeat split; discriminate|]
      end.
    eexists. repeat split.
  - rewrite H.
    repeat match goal with
      | |- context [String.eqb size ?k] =>
          destruct (String.eqb_spec size k) as [-> | _];
          [discriminate H|]
      end.
    split; reflexivity.
Qed.

Lemma X18_witness :
  getFontSize "xl" = inl "20px"
  /\ getFontSize "huge" = inl "16px"
  /\ getFontSize "constructor" = inr "constructor".
Proof.
  split; [|split].
  - destruct (X18_exported_font_size_matches "xl") as [H _].
    destruct (H eq_refl) as (style & E & F & _).
    rewrite F. injection E as <-. reflexivity.
  - destruct (X18_exported_font_size_matches "huge") as [H _].
    destruct (H eq_refl) as (style & E & F & _).
    rewrite F. injection E as <-. reflexivity.
  - destruct (X18_exported_font_size_matches "constructor") as [_ H].
    apply (H eq_refl).
Defined.

End StylesSpec.

(** * Focus ring *)

Module FocusRingSpec.
Import FocusRing.

Lemma take_digits_uint (d : Decimal.uint) :
  take_while is_digit (NilEmpty.string_of_uint d ++ "px")
  = NilEmpty.string_of_uint d.
Proof.
  induction d; cbn [NilEmpty.string_of_uint append take_while];
    [reflexivity | ..];
    (match goal with
     | |- context [is_digit ?c] => change (is_digit c) with true
     end; cbn iota; f_equal; assumption).
Qed.

Lemma string_of_Z_nonneg (n : Z) :
  (0 <= n)%Z ->
  JS.string_of_Z n = NilEmpty.string_of_uint (N.to_uint (Z.to_N n))
  /\ N.to_uint (Z.to_N n) <> Decimal.Nil.
Proof.
  intros H. destruct n as [|p|p]; [| |lia].
  - split; [reflexivity | discriminate].
  - split; [reflexivity|]. apply DecimalPos.Unsigned.to_uint_nonnil.
Qed.

(** Decide the character tests on the literal characters of the goal. *)
Ltac eval_chars :=
  repeat match goal with
    | |- context [is_space (Ascii ?a ?b ?c ?d ?e ?f ?g ?h)] =>
        let v := eval vm_compute in (is_space (Ascii a b c d e f g h)) in
        change (is_space (Ascii a b c d e f g h)) with v
    | |- context [is_digit (Ascii ?a ?b ?c ?d ?e ?f ?g ?h)] =>
        let v := eval vm_compute in (is_digit (Ascii a b c d e f g h)) in
        change (is_digit (Ascii a b c d e f g h)) with v
    end.

(** [parseInt] reads back the integer a decimal numeral prints, unit
    attached. *)
Lemma parseInt_decimal_px (d : Decimal.uint) :
  d <> Decimal.Nil ->
  parseInt (NilEmpty.string_of_uint d ++ "px") = Some (Z.of_N (N.of_uint d)).
Proof.
  intros Hd. pose proof (NilEmpty.usu d) as U.
  destruct d as [|d|d|d|d|d|d|d|d|d|d]; [congruence | ..].
  1: destruct d as [|d|d|d|d|d|d|d|d|d|d]; [reflexivity | ..].
  all: cbn [NilEmpty.string_of_uint append] in *;
    pose proof (take_digits_uint d) as T;
    set (tail := (NilEmpty.string_of_uint d ++ "px")%string) in *;
    unfold parseInt; cbn [trim_start]; eval_chars; cbn iota;
    cbn [fst snd Ascii.eqb Bool.eqb orb take_while]; eval_chars; cbn iota;
    rewrite T, U; reflexivity.
Qed.

(** X19: the focus ring is four pixels wider than the corner.  For a radius
    written as a whole number of pixels, at least 0 and with its sum below
    2^53, whose text does not contain 9999, [getFocusRadius] returns that
    number plus four, in pixels; and any text that contains 9999, the pill
    radius among them, gives 9999px. *)
Theorem X19_focus_radius_adds_four_pixels :
  forall n : Z,
    (0 <= n < 2 ^ 53 - 4)%Z ->
    (includes (JS.string_of_Z n ++ "px") "9999" = false ->
     getFocusRadius (JS.string_of_Z n ++ "px")
     = JS.string_of_Z (n + 4) ++ "px")
    /\ (forall r : string,
          includes r "9999" = true -> getFocusRadius r = "9999px").
Proof.
  intros n Hn. split.
  - intros Hpill. unfold getFocusRadius. rewrite Hpill.
    destruct (string_of_Z_nonneg n (proj1 Hn)) as [-> Hd].
    rewrite (parseInt_decimal_px _ Hd), DecimalN.Unsigned.of_to, Z2N.id
      by (apply Hn).
    reflexivity.
  - intros r Hpill. unfold getFocusRadius. rewrite Hpill. reflexivity.
Qed.

Lemma X19_witness :
  getFocusRadius "8px" = "12px" /\ getFocusRadius "19999px" = "9999px".
Proof.
  assert (B : (0 <= 8 < 2 ^ 53 - 4)%Z) by lia.
  destruct (X19_focus_radius_adds_four_pixels 8 B) as [H1 H2].
  split; [apply H1 | apply H2]; reflexivity.
Defined.

End FocusRingSpec.
